(** * Light-Box-UV: the session and averaging core of [InstrumentUI]

    Shallow embedding of test2.py: the instrument state, the handlers that
    change it ([_on_button_click], [_turn_on], [_turn_off], [_timer_tick]),
    the wire encoder ([send_matrix]), the session log
    ([save_session_data]) and the averaging function
    ([_calculate_average]).

    Conventions.
    - Python [float] timestamps and weighted sums are exact rationals [Q]:
      every finite float is a rational, and the arithmetic is carried out
      without rounding.  Brightness values are Python [int]s, here [Z].
    - The three grids are lists of lists, read and written by index; an
      index outside a list raises [IndexError], as in Python.
    - Clock reads ([time.time()], [datetime.datetime.now()]) and the answers
      of the dialogs are arguments of the handlers.  The input dialog
      answers within the bounds it is handed, [getInt_min] and
      [getInt_max]; a statement that depends on the range of the values
      takes these bounds as a hypothesis.
    - A handler runs to its end before the next one starts.
    - Widgets carry no instrument state and are left out of the handlers;
      what the instrument hands to the serial sink and to the session log
      is recorded, oldest first, in the field [log].  Of the presentation,
      the style sheet of a button ([_button_style], in binary64 floats as
      Python computes it) and the text of the runtime label are modelled
      on their own, and so is the choice of the port ([connect_serial]),
      whose passes are answered by a list of scans and typed lines. *)

From Stdlib Require Import ZArith QArith Qminmax Lia Lqa String Ascii.
From Stdlib Require Import DecimalString DecimalPos DecimalZ.
From Stdlib Require Import Uint63 PrimFloat FloatOps SpecFloat Qround.
From stdpp Require Import base list.

Local Open Scope Z_scope.
Local Open Scope Q_scope.
Local Open Scope nat_scope.
Local Open Scope list_scope.

(** ** Exceptions *)

Inductive exn : Type :=
| IndexError
| OSError.

Inductive outcome (A : Type) : Type :=
| Ok (a : A)
| Raise (e : exn).
Arguments Ok {A} a.
Arguments Raise {A} e.

Definition obind {A B : Type} (m : outcome A) (k : A -> outcome B) : outcome B :=
  match m with
  | Ok a => k a
  | Raise e => Raise e
  end.

Notation "'do' x <- m ; k" := (obind m (fun x => k))
  (at level 10, x name, m at level 100, k at level 200).

(** [for x in xs: acc = body x acc], stopping at the first exception. *)
Fixpoint for_each {A S : Type} (xs : list A) (body : A -> S -> outcome S) (s : S)
  : outcome S :=
  match xs with
  | [] => Ok s
  | x :: xs' => do s' <- body x s; for_each xs' body s'
  end.

(** [range(n)] *)
Definition range (n : nat) : list nat := seq 0 n.

(** ** Lists of lists indexed as [g[r][c]] *)

Definition getitem {A : Type} (l : list A) (i : nat) : outcome A :=
  match l !! i with
  | Some x => Ok x
  | None => Raise IndexError
  end.

Definition setitem {A : Type} (l : list A) (i : nat) (v : A) : outcome (list A) :=
  match l !! i with
  | Some _ => Ok (<[i := v]> l)
  | None => Raise IndexError
  end.

Definition get2 {A : Type} (g : list (list A)) (r c : nat) : outcome A :=
  do row <- getitem g r; getitem row c.

(** [g[r][c] = v]: the row object [g[r]] is fetched, then updated in place. *)
Definition set2 {A : Type} (g : list (list A)) (r c : nat) (v : A)
  : outcome (list (list A)) :=
  do row <- getitem g r;
  do row' <- setitem row c v;
  Ok (<[r := row']> g).

(** [[[v for _ in range(cols)] for _ in range(rows)]] *)
Definition fresh_grid {A : Type} (nr nc : nat) (v : A) : list (list A) :=
  replicate nr (replicate nc v).

(** ** Instrument state *)

(** What the instrument hands to its collaborators, oldest first. *)
Inductive io_event : Type :=
| EvSend (transmission : string)          (* send_matrix offered a frame to the sink *)
| EvSaved (averages : list (nat * nat * Q)) (* save_session_data wrote the summary *)
| EvSaveError (e : exn).                  (* save failed; reported in a message box *)

Record InstrumentUI : Type := mkInstrumentUI {
  instrument_on : bool;
  start_time : option Q;
  start_datetime : option Q;
  brightness_values : list (list Z);
  brightness_time_sum : list (list Q);
  last_update_time : list (list (option Q));
  log : list io_event
}.

Definition rows : nat := 8.
Definition cols : nat := 12.

Definition with_log (self : InstrumentUI) (l : list io_event) : InstrumentUI :=
  mkInstrumentUI (instrument_on self) (start_time self) (start_datetime self)
    (brightness_values self) (brightness_time_sum self) (last_update_time self) l.

Definition with_brightness_values (self : InstrumentUI) (g : list (list Z))
  : InstrumentUI :=
  mkInstrumentUI (instrument_on self) (start_time self) (start_datetime self)
    g (brightness_time_sum self) (last_update_time self) (log self).

Definition with_brightness_time_sum (self : InstrumentUI) (g : list (list Q))
  : InstrumentUI :=
  mkInstrumentUI (instrument_on self) (start_time self) (start_datetime self)
    (brightness_values self) g (last_update_time self) (log self).

Definition with_last_update_time (self : InstrumentUI) (g : list (list (option Q)))
  : InstrumentUI :=
  mkInstrumentUI (instrument_on self) (start_time self) (start_datetime self)
    (brightness_values self) (brightness_time_sum self) g (log self).

(** [x is None] *)
Definition is_None {A : Type} (x : option A) : bool :=
  match x with
  | None => true
  | Some _ => false
  end.

(** [for r in range(rows): for c in range(cols): body r c] *)
Definition for_cells {S : Type} (body : nat -> nat -> S -> outcome S) (s : S)
  : outcome S :=
  for_each (range rows) (fun r s1 => for_each (range cols) (fun c s2 => body r c s2) s1) s.

(** [s * n] on strings *)
Fixpoint repeat_string (s : string) (n : nat) : string :=
  match n with
  | 0 => EmptyString
  | S n' => (s ++ repeat_string s n')%string
  end.

(** ** send_matrix *)

(** Python's [str] on an [int]. *)
Definition str (z : Z) : string := NilZero.string_of_int (Z.to_int z).

(** [sep.join(parts)] *)
Definition join (sep : string) (parts : list string) : string :=
  String.concat sep parts.

(** The loop of [send_matrix]: columns outside, rows inside. *)
Definition matrix_parts (g : list (list Z)) : outcome (list string) :=
  for_each (range cols) (fun col parts1 =>
    for_each (range rows) (fun row parts2 =>
      do v <- get2 g row col;
      Ok (parts2 ++ [str v])) parts1) [].

Definition transmission_of (g : list (list Z)) : outcome string :=
  do parts <- matrix_parts g;
  Ok ("<" ++ join "," parts ++ ">")%string.

(** The frame is built and offered to the sink.  The three ways the sink
    treats it (printed in simulation mode, written to the open port with a
    write failure caught and reported, or refused because the port is not
    open) neither raise nor touch the instrument state. *)
Definition send_matrix (self : InstrumentUI) : outcome InstrumentUI :=
  do transmission <- transmission_of (brightness_values self);
  Ok (with_log self (log self ++ [EvSend transmission])).

(** ** _calculate_average *)

Definition _calculate_average (self : InstrumentUI) (r c : nat) (now : Q)
  : outcome Q :=
  if is_None (start_time self) && negb (instrument_on self) then Ok 0%Q
  else
    let total_time :=
      match start_time self with
      | Some s => (now - s)%Q
      | None => 0%Q
      end in
    if Qle_bool total_time 0 then
      do b <- get2 (brightness_values self) r c;
      Ok (inject_Z b)
    else
      do accumulated <- get2 (brightness_time_sum self) r c;
      do lut <- get2 (last_update_time self) r c;
      do current <- get2 (brightness_values self) r c;
      let partial :=
        match lut with
        | Some l => ((now - l) * inject_Z current)%Q
        | None => 0%Q
        end in
      let weighted := (accumulated + partial)%Q in
      Ok (weighted / total_time)%Q.

Definition calculate_average (self : InstrumentUI) (row col : nat) (now : Q)
  : outcome Q :=
  _calculate_average self row col now.

(** ** _on_button_click *)

(** Bounds handed to [QInputDialog.getInt]. *)
Definition getInt_min : Z := 0.
Definition getInt_max : Z := 100.

(** [sum[r][c] += b * dt] *)
Definition accumulate (g : list (list Q)) (r c : nat) (b : Z) (dt : Q)
  : outcome (list (list Q)) :=
  do s <- get2 g r c;
  set2 g r c (s + inject_Z b * dt)%Q.

(** [value] and [ok] are the answer of the dialog, [now] the clock read
    after it. *)
Definition _on_button_click (self : InstrumentUI) (row col : nat)
    (value : Z) (ok : bool) (now : Q) : outcome InstrumentUI :=
  do _initial <- get2 (brightness_values self) row col;
  if negb ok then Ok self
  else
    do old_val <- get2 (brightness_values self) row col;
    if instrument_on self then
      do lut <- get2 (last_update_time self) row col;
      do sums <-
        match lut with
        | Some l =>
            let dt := (now - l)%Q in
            if Qlt_le_dec 0 dt
            then accumulate (brightness_time_sum self) row col old_val dt
            else Ok (brightness_time_sum self)
        | None => Ok (brightness_time_sum self)
        end;
      do luts <- set2 (last_update_time self) row col (Some now);
      do vals <- set2 (brightness_values self) row col value;
      send_matrix
        (with_brightness_values
           (with_last_update_time (with_brightness_time_sum self sums) luts) vals)
    else
      do vals <- set2 (brightness_values self) row col value;
      Ok (with_brightness_values self vals).

(** ** _turn_on *)

Definition _turn_on (self : InstrumentUI) (now wall : Q) : outcome InstrumentUI :=
  let self1 :=
    mkInstrumentUI true (Some now) (Some wall) (brightness_values self)
      (fresh_grid rows cols 0%Q) (last_update_time self) (log self) in
  do self2 <-
    for_cells (fun r c s =>
      do luts <- set2 (last_update_time s) r c (Some now);
      Ok (with_last_update_time s luts)) self1;
  send_matrix self2.

(** ** save_session_data *)

(** What the outside world answers during a save: whether opening the log
    file raises, and the clock read by the average of each cell. *)
Record save_env : Type := mkSaveEnv {
  open_raises : option exn;
  clock : nat -> nat -> Q
}.

Definition save_session_data (self : InstrumentUI) (env : save_env)
  : outcome InstrumentUI :=
  match open_raises env with
  | Some e => Raise e
  | None =>
      do lines <-
        for_cells (fun r c acc =>
          do avg <- _calculate_average self r c (clock env r c);
          Ok (acc ++ [(r, c, avg)])) [];
      Ok (with_log self (log self ++ [EvSaved lines]))
  end.

(** ** _turn_off *)

(** The final accumulation pass; [last_update_time] is left as it is. *)
Definition final_accumulation (self : InstrumentUI) (now : Q) : outcome InstrumentUI :=
  for_cells (fun r c s =>
    do lut <- get2 (last_update_time s) r c;
    match lut with
    | Some l =>
        let dt := (now - l)%Q in
        if Qlt_le_dec 0 dt then
          do b <- get2 (brightness_values s) r c;
          do sums <- accumulate (brightness_time_sum s) r c b dt;
          Ok (with_brightness_time_sum s sums)
        else Ok s
    | None => Ok s
    end) self.

(** [_turn_off] up to and including the transmission of the zero matrix. *)
Definition closing (self : InstrumentUI) (now : Q) : outcome InstrumentUI :=
  do self1 <- final_accumulation self now;
  send_matrix (with_brightness_values self1 (fresh_grid rows cols 0%Z)).

(** [try: save_session_data() except Exception: report] *)
Definition try_save (self : InstrumentUI) (env : save_env) : InstrumentUI :=
  match save_session_data self env with
  | Ok self' => self'
  | Raise e => with_log self (log self ++ [EvSaveError e])
  end.

Definition clear_session (self : InstrumentUI) : InstrumentUI :=
  mkInstrumentUI false None None (brightness_values self)
    (brightness_time_sum self) (fresh_grid rows cols None) (log self).

Definition _turn_off (self : InstrumentUI) (now : Q) (env : save_env)
  : outcome InstrumentUI :=
  if negb (instrument_on self) then Ok self
  else
    do self1 <- closing self now;
    Ok (clear_session (try_save self1 env)).

Definition _toggle_instrument (self : InstrumentUI) (now wall : Q) (env : save_env)
  : outcome InstrumentUI :=
  if negb (instrument_on self) then _turn_on self now wall
  else _turn_off self now env.

(** ** _timer_tick *)

Definition _timer_tick (self : InstrumentUI) (now : Q) : outcome InstrumentUI :=
  if negb (instrument_on self) || is_None (start_time self) then Ok self
  else
    for_cells (fun r c s =>
      do lut <- get2 (last_update_time s) r c;
      match lut with
      | Some l =>
          let dt := (now - l)%Q in
          if Qlt_le_dec 0 dt then
            do b <- get2 (brightness_values s) r c;
            do sums <- accumulate (brightness_time_sum s) r c b dt;
            do luts <- set2 (last_update_time s) r c (Some now);
            Ok (with_last_update_time (with_brightness_time_sum s sums) luts)
          else Ok s
      | None => Ok s
      end) self.

(** ** __init__ *)

(** The state built by the constructor, before the first [send_matrix]. *)
Definition fresh_instrument : InstrumentUI :=
  mkInstrumentUI false None None (fresh_grid rows cols 0%Z)
    (fresh_grid rows cols 0%Q) (fresh_grid rows cols None) [].

Definition __init__ : outcome InstrumentUI := send_matrix fresh_instrument.

(** The frame of the all-zero matrix: 95 times "0,", then a last "0". *)
Definition zero_frame : string :=
  ("<" ++ repeat_string "0," 95 ++ "0" ++ ">")%string.

(** ** The instants of a run *)

Inductive op : Type :=
| Click (row col : nat) (value : Z) (ok : bool)
| Tick
| TurnOn (wall : Q)
| TurnOff (env : save_env).

Definition step (self : InstrumentUI) (now : Q) (o : op) : outcome InstrumentUI :=
  match o with
  | Click row col value ok => _on_button_click self row col value ok now
  | Tick => _timer_tick self now
  | TurnOn wall => _turn_on self now wall
  | TurnOff env => _turn_off self now env
  end.

(** ** Well-shaped grids *)

Definition shaped {A : Type} (g : list (list A)) : Prop :=
  length g = rows /\ Forall (fun row => length row = cols) g.

Definition wf (self : InstrumentUI) : Prop :=
  shaped (brightness_values self) /\
  shaped (brightness_time_sum self) /\
  shaped (last_update_time self).

(** The cells in the order of [for_cells]. *)
Definition cells_of (nr nc : nat) : list (nat * nat) :=
  r ← range nr; (fun c => (r, c)) <$> range nc.

(* ================================================================= *)
(** * Definitions used by the statements *)

(** ** Views of the state *)

(** The three per-cell fields: brightness, accumulated weight, last
    accounted instant. *)
Definition cell (self : InstrumentUI) (r c : nat) : outcome (Z * Q * option Q) :=
  do b <- get2 (brightness_values self) r c;
  do s <- get2 (brightness_time_sum self) r c;
  do l <- get2 (last_update_time self) r c;
  Ok (b, s, l).

(** The session fields and the output. *)
Definition session (self : InstrumentUI)
  : bool * option Q * option Q * list io_event :=
  (instrument_on self, start_time self, start_datetime self, log self).

(** What one tick does to one cell. *)
Definition tick_cell (now : Q) (v : Z * Q * option Q) : Z * Q * option Q :=
  match v with
  | (b, s, Some l) =>
      if Qlt_le_dec 0 (now - l) then (b, (s + inject_Z b * (now - l))%Q, Some now)
      else v
  | (_, _, None) => v
  end.

(** The entry of a well-shaped grid, with a default used nowhere inside it. *)
Definition entry {A : Type} (d : A) (g : list (list A)) (r c : nat) : A :=
  match get2 g r c with
  | Ok v => v
  | Raise _ => d
  end.

(** The values of the frame, in the order of transmission. *)
Definition wire_values (g : list (list Z)) : list Z :=
  (fun p => entry 0%Z g p.2 p.1) <$> cells_of cols rows.

(** The average of a cell of a well-shaped instrument. *)
Definition average (self : InstrumentUI) (now : Q) (r c : nat) : Q :=
  match _calculate_average self r c now with
  | Ok q => q
  | Raise _ => 0%Q
  end.

(** The lines of the session summary. *)
Definition summary (self : InstrumentUI) (env : save_env) : list (nat * nat * Q) :=
  (fun p => (p.1, p.2, average self (clock env p.1 p.2) p.1 p.2)) <$> cells_of rows cols.

(** The event a save leaves in the log. *)
Definition save_event (self : InstrumentUI) (env : save_env) : io_event :=
  match open_raises env with
  | Some e => EvSaveError e
  | None => EvSaved (summary self env)
  end.

(** What the final accumulation pass of [_turn_off] does to one cell. *)
Definition close_cell (now : Q) (v : Z * Q * option Q) : Z * Q * option Q :=
  match v with
  | (b, s, Some l) =>
      if Qlt_le_dec 0 (now - l) then (b, (s + inject_Z b * (now - l))%Q, Some l)
      else v
  | (_, _, None) => v
  end.

(** What an accepted edit does to the edited cell. *)
Definition click_cell (on : bool) (value : Z) (now : Q) (v : Z * Q * option Q)
  : Z * Q * option Q :=
  if on then
    match v with
    | (b, s, Some l) =>
        if Qlt_le_dec 0 (now - l)
        then (value, (s + inject_Z b * (now - l))%Q, Some now)
        else (value, s, Some now)
    | (_, s, None) => (value, s, Some now)
    end
  else (value, v.1.2, v.2).

(** ** Concrete instruments *)

(** A running session: switched on at instant 0 with cell (0,0) staged at
    30, cell (0,0) set to 50 at instant 4. *)
Definition demo_on : InstrumentUI :=
  Eval vm_compute in
    match
      (do s0 <- __init__;
       do s1 <- _on_button_click s0 0 0 30 true 0;
       do s2 <- _turn_on s1 0 0;
       _on_button_click s2 0 0 50 true 4)
    with
    | Ok s => s
    | Raise _ => fresh_instrument
    end.

Definition demo_env : save_env := mkSaveEnv None (fun _ _ => 10%Q).
Definition failing_env : save_env := mkSaveEnv (Some OSError) (fun _ _ => 10%Q).

Definition brightness_in_range (self : InstrumentUI) : Prop :=
  forall r c v, get2 (brightness_values self) r c = Ok v ->
    (getInt_min <= v <= getInt_max)%Z.

(** The average of cell [(r, c)] in the summary that ends the log. *)
Definition saved_average (l : list io_event) (r c : nat) : option Q :=
  match last l with
  | Some (EvSaved lines) => (fun line => line.2) <$> lines !! (r * cols + c)
  | _ => None
  end.

(** ** Trajectories, integrals and runs *)

(** The brightness a cell shows during a session, as samples (instant,
    brightness from that instant on), oldest first; the first sample is
    taken when the session starts. *)
Definition trajectory : Type := list (Q * Z).

(** The time integral up to [T] of the step function that is [b] from [t]
    on and then follows the samples [rest]. *)
Fixpoint integral_from (t : Q) (b : Z) (rest : trajectory) (T : Q) : Q :=
  match rest with
  | [] => (inject_Z b * (T - Qmin t T))%Q
  | (t', b') :: rest' =>
      (inject_Z b * (Qmin t' T - Qmin t T) + integral_from t' b' rest' T)%Q
  end.

(** The time integral of the brightness from the first sample to [T]. *)
Definition integral (tr : trajectory) (T : Q) : Q :=
  match tr with
  | [] => 0%Q
  | (t, b) :: rest => integral_from t b rest T
  end.

(** The sample an observer of cell [(r, c)] takes after the handler of [o]
    has run at instant [now]; a session start begins a new trajectory. *)
Definition observe (r c : nat) (now : Q) (o : op) (after : InstrumentUI)
    (tr : trajectory) : trajectory :=
  let sample := (now, entry 0%Z (brightness_values after) r c) in
  match o with
  | TurnOn _ => [sample]
  | _ => tr ++ [sample]
  end.

(** The handlers run one after the other, each at its instant, while the
    observer of cell [(r, c)] records the trajectory. *)
Fixpoint run (r c : nat) (self : InstrumentUI) (tr : trajectory)
    (events : list (Q * op)) : outcome (InstrumentUI * trajectory) :=
  match events with
  | [] => Ok (self, tr)
  | (now, o) :: rest =>
      do after <- step self now o;
      run r c after (observe r c now o after tr) rest
  end.

(** The clock does not go back. *)
Fixpoint chronological (t : Q) (events : list (Q * op)) : Prop :=
  match events with
  | [] => True
  | (now, _) :: rest => (t <= now)%Q /\ chronological now rest
  end.

Definition last_instant (t : Q) (events : list (Q * op)) : Q :=
  match last events with
  | Some (now, _) => now
  | None => t
  end.

(** Edits address cells of the grid. *)
Definition op_in_grid (o : op) : Prop :=
  match o with
  | Click row col _ _ => row < rows /\ col < cols
  | _ => True
  end.

(** The accumulator [acc] and the instant [lut] account for the trajectory
    [tr], whose last sample is not later than [tlast] and whose brightness
    has been [b] since [lut]. *)
Definition tracks (tr : trajectory) (tlast : Q) (b : Z) (acc lut : Q) : Prop :=
  Forall (fun s => (s.1 <= tlast)%Q) tr /\
  (lut <= tlast)%Q /\
  (acc == integral tr lut)%Q /\
  forall T, (lut <= T)%Q -> (integral tr T == acc + inject_Z b * (T - lut))%Q.

(** While a session is active, cell [(r, c)] is accounted for. *)
Definition accounted (r c : nat) (self : InstrumentUI) (tr : trajectory)
    (tlast : Q) : Prop :=
  instrument_on self = true ->
  exists start b0 rest b acc lut,
    start_time self = Some start /\
    tr = (start, b0) :: rest /\
    cell self r c = Ok (b, acc, Some lut) /\
    tracks tr tlast b acc lut.

(** A session on cell (0,0): on at 0 and set to 50; a tick at 1; set to
    100 at 10; a tick at 15. *)
Definition demo_events : list (Q * op) :=
  [(0%Q, TurnOn 0); (0%Q, Click 0 0 50 true); (1%Q, Tick);
   (10%Q, Click 0 0 100 true); (15%Q, Tick)].

(** ** Sequences of handler calls *)

(** The handlers run one after the other, each at its instant. *)
Fixpoint execute (self : InstrumentUI) (events : list (Q * op))
  : outcome InstrumentUI :=
  match events with
  | [] => Ok self
  | (now, o) :: rest => do after <- step self now o; execute after rest
  end.

(** The frame the sink was offered last. *)
Fixpoint last_sent (l : list io_event) : option string :=
  match l with
  | [] => None
  | e :: l' =>
      match last_sent l' with
      | Some t => Some t
      | None =>
          match e with
          | EvSend t => Some t
          | _ => None
          end
      end
  end.

(** The device shows the matrix while a session is active and is dark
    while none is. *)
Definition device_in_sync (self : InstrumentUI) : Prop :=
  if instrument_on self
  then exists t, transmission_of (brightness_values self) = Ok t /\
         last_sent (log self) = Some t
  else last_sent (log self) = Some zero_frame.

(** The session fields agree with each other. *)
Definition session_consistent (self : InstrumentUI) : Prop :=
  if instrument_on self
  then start_time self <> None /\ start_datetime self <> None /\
       forall r c, r < rows -> c < cols ->
         exists l, get2 (last_update_time self) r c = Ok (Some l)
  else start_time self = None /\ start_datetime self = None /\
       forall r c, r < rows -> c < cols ->
         get2 (last_update_time self) r c = Ok None.

(** Edits address cells of the grid with values the dialog allows. *)
Definition op_in_range (o : op) : Prop :=
  match o with
  | Click row col value ok =>
      row < rows /\ col < cols /\
      (ok = true -> (getInt_min <= value <= getInt_max)%Z)
  | _ => True
  end.

(** A frame of 96 values between 0 and 100. *)
Definition frame_in_range (t : string) : Prop :=
  exists vals : list Z,
    length vals = 96 /\
    Forall (fun v => (getInt_min <= v <= getInt_max)%Z) vals /\
    t = ("<" ++ join "," (str <$> vals) ++ ">")%string.

(** Every frame in the output is such a frame. *)
Definition frames_in_range (l : list io_event) : Prop :=
  Forall (fun e => match e with
                   | EvSend t => frame_in_range t
                   | _ => True
                   end) l.

(** While a session is active, every accumulated weight lies between 0 and
    100 times the accounted duration. *)
Definition weights_bounded (t : Q) (self : InstrumentUI) : Prop :=
  brightness_in_range self /\
  if instrument_on self
  then exists s, start_time self = Some s /\ (s <= t)%Q /\
         forall r c, r < rows -> c < cols ->
           exists b acc l, cell self r c = Ok (b, acc, Some l) /\
             (s <= l)%Q /\ (l <= t)%Q /\
             (0 <= acc)%Q /\ (acc <= 100 * (l - s))%Q
  else start_time self = None.

(** ** _button_style *)

(** An [int] as a [float]; exact below 2^53 in absolute value, where the
    quotient [a / b] of two [int]s is the float division of their
    conversions. *)
Definition float_of_int (z : Z) : float :=
  if (z <? 0)%Z
  then PrimFloat.opp (PrimFloat.of_uint63 (Uint63.of_Z (- z)))
  else PrimFloat.of_uint63 (Uint63.of_Z z).

(** [int(x)] on a float: the integer part, towards zero; [None] where
    Python raises (NaN, infinities). *)
Definition int_of_float (x : float) : option Z :=
  match Prim2SF x with
  | S754_zero _ => Some 0%Z
  | S754_finite s m e =>
      let a := if (0 <=? e)%Z then (Z.pos m * 2 ^ e)%Z else (Z.pos m / 2 ^ (- e))%Z in
      Some (if s then (- a)%Z else a)
  | S754_infinity _ => None
  | S754_nan => None
  end.

Definition nl : string := String (ascii_of_nat 10) EmptyString.

(** The style sheet around the background and the font style. *)
Definition style_sheet (bg style : string) : string :=
  (nl ++ repeat_string " " 12 ++ "QPushButton {" ++
   nl ++ repeat_string " " 16 ++ "background-color: " ++ bg ++ ";" ++
   nl ++ repeat_string " " 16 ++ "color: black;" ++
   nl ++ repeat_string " " 16 ++ "font-size: 14px;" ++
   nl ++ repeat_string " " 16 ++ "font-weight: bold;" ++
   nl ++ repeat_string " " 16 ++ "border-radius: 6px;" ++
   nl ++ repeat_string " " 16 ++ style ++
   nl ++ repeat_string " " 12 ++ "}" ++
   nl ++ repeat_string " " 8)%string.

Definition rgb_text (r g b : Z) : string :=
  ("rgb(" ++ str r ++ "," ++ str g ++ "," ++ str b ++ ")")%string.

Definition _button_style (brightness : Z) : option string :=
  if (brightness =? 0)%Z
  then Some (style_sheet "rgb(100,100,100)" "font-style: italic;")
  else
    match
      (if (brightness <=? 50)%Z
       then
         match int_of_float
                 (PrimFloat.mul
                    (PrimFloat.div (float_of_int brightness) (float_of_int 50))
                    (float_of_int 255)) with
         | Some g => Some (255%Z, g, 0%Z)
         | None => None
         end
       else
         match int_of_float
                 (PrimFloat.sub (float_of_int 255)
                    (PrimFloat.mul
                       (PrimFloat.div (float_of_int (brightness - 50))
                          (float_of_int 50))
                       (float_of_int 255))) with
         | Some r => Some (r, 255%Z, 0%Z)
         | None => None
         end)
    with
    | Some (r, g, b) => Some (style_sheet (rgb_text r g b) "font-style: normal;")
    | None => None
    end.

(** The colour of a brightness in exact integer arithmetic: green rises
    to 255 at 50, then red falls to 0 at 100. *)
Definition button_rgb (brightness : Z) : Z * Z * Z :=
  if (brightness <=? 50)%Z
  then (255, 255 * brightness / 50, 0)%Z
  else (255 - (255 * (brightness - 50) + 49) / 50, 255, 0)%Z.

(** ** The runtime label of _timer_tick *)

(** [int(x)] on an exact rational: towards zero. *)
Definition int_of_Q (x : Q) : Z := Z.quot (Qnum x) (Z.pos (Qden x)).

(** [f"{n:02}"]: at least two characters, zeros after the sign. *)
Definition format_02 (n : Z) : string :=
  if (n <? 0)%Z then str n
  else if (n <? 10)%Z then ("0" ++ str n)%string
  else str n.

(** The text [_timer_tick] puts on the runtime label. *)
Definition _timer_tick_label (self : InstrumentUI) (now : Q) : string :=
  if negb (instrument_on self) || is_None (start_time self)
  then "Running time: 0s"%string
  else
    match start_time self with
    | Some start =>
        let elapsed := int_of_Q (now - start) in
        let hrs := (elapsed / 3600)%Z in
        let rem := (elapsed mod 3600)%Z in
        let mins := (rem / 60)%Z in
        let secs := (rem mod 60)%Z in
        ("Running time: " ++ format_02 hrs ++ ":" ++ format_02 mins ++ ":"
         ++ format_02 secs)%string
    | None => "Running time: 0s"%string
    end.

(** ** Strings without commas *)

Fixpoint comma_free (s : string) : bool :=
  match s with
  | EmptyString => true
  | String a rest => negb (Ascii.eqb a ",") && comma_free rest
  end.

(** ** connect_serial *)

(** [str.isspace] on an ASCII character. *)
Definition is_space (a : ascii) : bool :=
  let n := nat_of_ascii a in
  ((9 <=? n) && (n <=? 13)) || ((28 <=? n) && (n <=? 32)).

Fixpoint lstrip (s : string) : string :=
  match s with
  | EmptyString => EmptyString
  | String a rest => if is_space a then lstrip rest else s
  end.

Fixpoint rstrip (s : string) : string :=
  match s with
  | EmptyString => EmptyString
  | String a rest =>
      match rstrip rest with
      | EmptyString => if is_space a then EmptyString else String a EmptyString
      | rest' => String a rest'
      end
  end.

(** [s.strip()] *)
Definition strip (s : string) : string := rstrip (lstrip s).

Definition lower_char (a : ascii) : ascii :=
  let n := nat_of_ascii a in
  if (65 <=? n) && (n <=? 90) then ascii_of_nat (n + 32) else a.

(** [s.lower()] *)
Fixpoint lower (s : string) : string :=
  match s with
  | EmptyString => EmptyString
  | String a rest => String (lower_char a) (lower rest)
  end.

Definition is_digit_char (a : ascii) : bool :=
  let n := nat_of_ascii a in (48 <=? n) && (n <=? 57).

Fixpoint all_digits (s : string) : bool :=
  match s with
  | EmptyString => true
  | String a rest => is_digit_char a && all_digits rest
  end.

(** [s.isdigit()] *)
Definition isdigit (s : string) : bool :=
  match s with
  | EmptyString => false
  | _ => all_digits s
  end.

Fixpoint int_of_digits (acc : Z) (s : string) : Z :=
  match s with
  | EmptyString => acc
  | String a rest =>
      int_of_digits (10 * acc + Z.of_nat (nat_of_ascii a - 48))%Z rest
  end.

(** [int(s)] on a string of digits *)
Definition int_of_string (s : string) : Z := int_of_digits 0 s.

(** One pass of the loop, as the outside world answers it: the devices the
    scan finds, the line typed, and whether the chosen port opens. *)
Record attempt : Type := mkAttempt {
  ports : list string;
  answer : string;
  opens : bool
}.

(** How [connect_serial] ends: with [serial_conn] an open port and
    [connected_port] its name, in simulation mode with a [FakeSerial], by
    [sys.exit(0)], or not yet (the loop is asking again). *)
Inductive connection : Type :=
| Connected (port_name : string)
| Simulated
| Exited
| Asking.

Fixpoint connect_serial (attempts : list attempt) : connection :=
  match attempts with
  | [] => Asking
  | a :: rest =>
      let choice := lower (strip (answer a)) in
      if String.eqb choice "q" then Exited
      else if String.eqb choice "s" then Simulated
      else
        match ports a with
        | [] => connect_serial rest
        | _ :: _ =>
            if isdigit choice then
              let idx := (int_of_string choice - 1)%Z in
              if (0 <=? idx)%Z && (idx <? Z.of_nat (length (ports a)))%Z then
                match ports a !! Z.to_nat idx with
                | Some port_name =>
                    if opens a then Connected port_name else connect_serial rest
                | None => connect_serial rest
                end
              else connect_serial rest
            else connect_serial rest
        end
  end.

(** The answers the model reads as Python does: ASCII text of at most 4300
    characters (beyond that [int] may refuse a numeral). *)
Fixpoint ascii_text (s : string) : bool :=
  match s with
  | EmptyString => true
  | String a rest => (nat_of_ascii a <? 128) && ascii_text rest
  end.

Definition typed (a : attempt) : Prop :=
  ascii_text (answer a) = true /\ String.length (answer a) <= 4300.

(* ================================================================= *)
(** * Lemmas *)

Section Outcome.
Context {A B : Type}.

Lemma obind_ok (m : outcome A) (k : A -> outcome B) (b : B) :
  obind m k = Ok b -> exists a, m = Ok a /\ k a = Ok b.
Proof. destruct m as [a|e]; simpl; intros H; [eauto | discriminate]. Qed.

Lemma obind_ext (m : outcome A) (k k' : A -> outcome B) :
  (forall a, k a = k' a) -> obind m k = obind m k'.
Proof. intros E. destruct m; simpl; auto. Qed.

Lemma obind_ok_l (m : outcome A) (k : A -> outcome B) (a : A) :
  m = Ok a -> obind m k = k a.
Proof. now intros ->. Qed.
End Outcome.

Ltac inv_ok :=
  repeat match goal with
  | H : obind _ _ = Ok _ |- _ =>
      let a := fresh "a" in
      let Ha := fresh "Ha" in
      apply obind_ok in H; destruct H as (a & Ha & H)
  | H : Ok _ = Ok _ |- _ => injection H as H; try subst
  | H : Raise _ = Ok _ |- _ => discriminate H
  end.

Section Loops.
Context {K S : Type}.

Lemma for_each_app (xs ys : list K) (body : K -> S -> outcome S) (s : S) :
  for_each (xs ++ ys) body s = do s' <- for_each xs body s; for_each ys body s'.
Proof.
  revert s; induction xs as [|x xs IH]; intros s; simpl; [reflexivity|].
  destruct (body x s); simpl; auto.
Qed.

Lemma for_each_ext (xs : list K) (f g : K -> S -> outcome S) (s : S) :
  (forall k s', f k s' = g k s') -> for_each xs f s = for_each xs g s.
Proof.
  intros E; revert s; induction xs as [|x xs IH]; intros s; simpl; [reflexivity|].
  rewrite E. destruct (g x s); simpl; auto.
Qed.
End Loops.

(** A loop nest is the loop over the flattened list of index pairs. *)
Lemma for_each_nest {S : Type} (xs ys : list nat) (body : nat -> nat -> S -> outcome S)
    (s : S) :
  for_each xs (fun x s1 => for_each ys (fun y s2 => body x y s2) s1) s
  = for_each (x ← xs; (fun y => (x, y)) <$> ys) (fun p s' => body p.1 p.2 s') s.
Proof.
  revert s; induction xs as [|x xs IH]; intros s; [reflexivity|].
  cbn [for_each mbind list_bind]. rewrite for_each_app.
  assert (E : for_each ys (fun y s2 => body x y s2) s
              = for_each ((fun y => (x, y)) <$> ys) (fun p s' => body p.1 p.2 s') s).
  { clear. revert s. induction ys as [|y ys IHy]; intros s; simpl; [reflexivity|].
    destruct (body x y s); simpl; auto. }
  rewrite E. apply obind_ext. intros s'. apply IH.
Qed.

Lemma for_cells_flat {S : Type} (body : nat -> nat -> S -> outcome S) (s : S) :
  for_cells body s = for_each (cells_of rows cols) (fun p s' => body p.1 p.2 s') s.
Proof. apply for_each_nest. Qed.

Lemma elem_of_cells_of (nr nc r c : nat) :
  (r, c) ∈ cells_of nr nc <-> r < nr /\ c < nc.
Proof.
  unfold cells_of, range. rewrite list_elem_of_bind. split.
  - intros (r' & Hc & Hr). apply list_elem_of_fmap in Hc as (c' & E & Hc).
    injection E as -> ->. apply elem_of_seq in Hr, Hc. lia.
  - intros [Hr Hc]. exists r. split.
    + apply list_elem_of_fmap. exists c. split; [reflexivity|]. apply elem_of_seq. lia.
    + apply elem_of_seq. lia.
Qed.

Lemma NoDup_cells_of (nr nc : nat) : NoDup (cells_of nr nc).
Proof.
  unfold cells_of, range. apply NoDup_bind.
  - intros r r' p _ _ H1 H2.
    apply list_elem_of_fmap in H1 as (? & -> & _).
    apply list_elem_of_fmap in H2 as (? & E & _). now injection E.
  - intros r _. apply NoDup_fmap_2; [|apply NoDup_seq].
    intros c c' E. now injection E.
  - apply NoDup_seq.
Qed.

Lemma getitem_Ok {A : Type} (l : list A) (i : nat) (x : A) :
  getitem l i = Ok x <-> l !! i = Some x.
Proof.
  unfold getitem. destruct (l !! i); split; intros H;
    try discriminate; injection H as ->; reflexivity.
Qed.

Section Grid.
Context {A : Type}.
Implicit Types (g : list (list A)) (l : list A).

Lemma get2_Ok g r c x :
  get2 g r c = Ok x <-> exists row, g !! r = Some row /\ row !! c = Some x.
Proof.
  unfold get2. split.
  - intros H. inv_ok. apply getitem_Ok in Ha, H. eauto.
  - intros (row & Hr & Hc). apply getitem_Ok in Hr, Hc. now rewrite Hr.
Qed.

Lemma shaped_row g r row : shaped g -> g !! r = Some row -> length row = cols.
Proof.
  intros [_ Hall] Hr. rewrite Forall_lookup in Hall. exact (Hall _ _ Hr).
Qed.

Lemma shaped_get2 g r c :
  shaped g -> r < rows -> c < cols -> exists x, get2 g r c = Ok x.
Proof.
  intros Hg Hr Hc.
  destruct (lookup_lt_is_Some_2 g r) as [row Hrow]; [destruct Hg; lia|].
  destruct (lookup_lt_is_Some_2 row c) as [x Hx].
  { rewrite (shaped_row g r row); auto. }
  exists x. apply get2_Ok. eauto.
Qed.

Lemma set2_get2 g g' r c v r' c' :
  set2 g r c v = Ok g' ->
  get2 g' r' c' = if decide ((r', c') = (r, c)) then Ok v else get2 g r' c'.
Proof.
  unfold set2, setitem. intros H. inv_ok. apply getitem_Ok in Ha.
  destruct (a !! c) as [x|] eqn:Hx; [|discriminate]. inv_ok.
  assert (Hr : r < length g) by (eapply lookup_lt_Some; eauto).
  assert (Hc : c < length a) by (eapply lookup_lt_Some; eauto).
  unfold get2, getitem. destruct (decide (r' = r)) as [->|Hne].
  - rewrite list_lookup_insert_eq by assumption. simpl.
    destruct (decide (c' = c)) as [->|Hne'].
    + rewrite list_lookup_insert_eq by assumption.
      rewrite decide_True; reflexivity.
    + rewrite list_lookup_insert_ne by congruence.
      rewrite decide_False by congruence. now rewrite Ha.
  - rewrite list_lookup_insert_ne by congruence.
    rewrite decide_False by congruence. reflexivity.
Qed.

Lemma set2_shaped g g' r c v : set2 g r c v = Ok g' -> shaped g -> shaped g'.
Proof.
  unfold set2, setitem. intros H [Hlen Hall]. inv_ok. apply getitem_Ok in Ha.
  destruct (a !! c) as [x|] eqn:Hx; [|discriminate]. inv_ok.
  split; [now rewrite length_insert|].
  apply Forall_insert; [assumption|]. rewrite length_insert.
  rewrite Forall_lookup in Hall. exact (Hall _ _ Ha).
Qed.

Lemma shaped_set2 g r c v :
  shaped g -> r < rows -> c < cols -> exists g', set2 g r c v = Ok g'.
Proof.
  intros Hg Hr Hc. destruct (shaped_get2 g r c Hg Hr Hc) as [x Hx].
  apply get2_Ok in Hx as (row & Hrow & Hx).
  unfold set2, setitem. apply getitem_Ok in Hrow. rewrite Hrow. simpl.
  rewrite Hx. simpl. eauto.
Qed.

Lemma shaped_fresh (v : A) : shaped (fresh_grid rows cols v).
Proof.
  unfold fresh_grid. split; [apply length_replicate|].
  apply Forall_replicate. apply length_replicate.
Qed.

Lemma get2_fresh (v : A) r c :
  r < rows -> c < cols -> get2 (fresh_grid rows cols v) r c = Ok v.
Proof.
  intros Hr Hc. apply get2_Ok. exists (replicate cols v).
  unfold fresh_grid. split; now apply lookup_replicate_2.
Qed.
End Grid.

(** A loop over the cells whose body only rewrites the cell it visits. *)
Section CellLocal.
Context {S V W : Type}.
Variable I : S -> Prop.
Variable view : S -> nat -> nat -> outcome V.
Variable rest : S -> W.
Variable body : nat -> nat -> S -> outcome S.
Variable F : nat -> nat -> V -> V.

Hypothesis body_local : forall s r c,
  I s -> r < rows -> c < cols ->
  exists v s', view s r c = Ok v /\ body r c s = Ok s' /\ I s' /\ rest s' = rest s /\
    forall r' c', view s' r' c' =
      if decide ((r', c') = (r, c)) then Ok (F r c v) else view s r' c'.

Lemma for_each_local (ks : list (nat * nat)) (s : S) :
  NoDup ks -> (forall r c, (r, c) ∈ ks -> r < rows /\ c < cols) -> I s ->
  exists s', for_each ks (fun p s' => body p.1 p.2 s') s = Ok s' /\ I s' /\
    rest s' = rest s /\
    forall r c, r < rows -> c < cols -> exists v, view s r c = Ok v /\
      view s' r c = if decide ((r, c) ∈ ks) then Ok (F r c v) else Ok v.
Proof.
  revert s. induction ks as [|[r0 c0] ks IH]; intros s Hnd Hin Hs.
  - exists s. repeat split; auto. intros r c Hr Hc.
    destruct (body_local s r c Hs Hr Hc) as (v & _ & Hv & _).
    exists v. split; [assumption|]. rewrite decide_False; [assumption|].
    apply not_elem_of_nil.
  - apply NoDup_cons in Hnd as [Hnotin Hnd].
    destruct (Hin r0 c0) as [Hr0 Hc0]; [left|].
    destruct (body_local s r0 c0 Hs Hr0 Hc0) as (v0 & s1 & Hv0 & Hb & Hs1 & Hrest1 & Hview1).
    destruct (IH s1 Hnd) as (s2 & Hloop & Hs2 & Hrest2 & Hview2); auto.
    { intros r c H. apply Hin. now right. }
    exists s2. simpl. rewrite Hb. simpl. repeat split; auto; try congruence.
    intros r c Hr Hc. destruct (Hview2 r c Hr Hc) as (v1 & Hv1 & Hv2).
    rewrite Hview1 in Hv1. destruct (decide ((r, c) = (r0, c0))) as [E|NE].
    + injection E as -> ->. exists v0. split; [assumption|].
      rewrite decide_True by left. rewrite Hv2.
      rewrite decide_False by assumption. congruence.
    + exists v1. split; [assumption|]. rewrite Hv2.
      destruct (decide ((r, c) ∈ ks)) as [Hi|Hni].
      * rewrite decide_True by (now right). reflexivity.
      * rewrite decide_False; [reflexivity|].
        intros Hcons. apply elem_of_cons in Hcons as [?|?]; contradiction.
Qed.

Lemma for_cells_local (s : S) :
  I s ->
  exists s', for_cells body s = Ok s' /\ I s' /\ rest s' = rest s /\
    forall r c, r < rows -> c < cols ->
      exists v, view s r c = Ok v /\ view s' r c = Ok (F r c v).
Proof.
  intros Hs. rewrite for_cells_flat.
  destruct (for_each_local (cells_of rows cols) s) as (s' & Hl & Hs' & Hr & Hv); auto.
  { apply NoDup_cells_of. }
  { intros r c. apply elem_of_cells_of. }
  exists s'. repeat split; auto. intros r c Hr' Hc'.
  destruct (Hv r c Hr' Hc') as (v & Hv1 & Hv2). exists v. split; [assumption|].
  rewrite Hv2. rewrite decide_True; [reflexivity|]. now apply elem_of_cells_of.
Qed.
End CellLocal.

(** ** Cells of the instrument *)

Lemma cell_Ok self r c b s l :
  cell self r c = Ok (b, s, l) <->
  get2 (brightness_values self) r c = Ok b /\
  get2 (brightness_time_sum self) r c = Ok s /\
  get2 (last_update_time self) r c = Ok l.
Proof.
  unfold cell. split.
  - intros H. inv_ok. auto.
  - intros (-> & -> & ->). reflexivity.
Qed.

Lemma wf_cell self r c :
  wf self -> r < rows -> c < cols -> exists b s l, cell self r c = Ok (b, s, l).
Proof.
  intros (Hb & Hs & Hl) Hr Hc.
  destruct (shaped_get2 _ r c Hb Hr Hc) as [b Eb].
  destruct (shaped_get2 _ r c Hs Hr Hc) as [s Es].
  destruct (shaped_get2 _ r c Hl Hr Hc) as [l El].
  exists b, s, l. now apply cell_Ok.
Qed.

Lemma cell_set_sum self r c v g r' c' b s l :
  cell self r c = Ok (b, s, l) ->
  set2 (brightness_time_sum self) r c v = Ok g ->
  cell (with_brightness_time_sum self g) r' c' =
    if decide ((r', c') = (r, c)) then Ok (b, v, l) else cell self r' c'.
Proof.
  intros Hc Hg. apply cell_Ok in Hc as (Eb & Es & El).
  unfold cell; simpl. rewrite (set2_get2 _ _ _ _ _ r' c' Hg).
  destruct (decide ((r', c') = (r, c))) as [E|NE]; [|reflexivity].
  injection E as -> ->. now rewrite Eb, El.
Qed.

Lemma cell_set_lut self r c v g r' c' b s l :
  cell self r c = Ok (b, s, l) ->
  set2 (last_update_time self) r c v = Ok g ->
  cell (with_last_update_time self g) r' c' =
    if decide ((r', c') = (r, c)) then Ok (b, s, v) else cell self r' c'.
Proof.
  intros Hc Hg. apply cell_Ok in Hc as (Eb & Es & El).
  unfold cell; simpl. rewrite (set2_get2 _ _ _ _ _ r' c' Hg).
  destruct (decide ((r', c') = (r, c))) as [E|NE]; [|reflexivity].
  injection E as -> ->. now rewrite Eb, Es.
Qed.

Lemma cell_set_bv self r c v g r' c' b s l :
  cell self r c = Ok (b, s, l) ->
  set2 (brightness_values self) r c v = Ok g ->
  cell (with_brightness_values self g) r' c' =
    if decide ((r', c') = (r, c)) then Ok (v, s, l) else cell self r' c'.
Proof.
  intros Hc Hg. apply cell_Ok in Hc as (Eb & Es & El).
  unfold cell; simpl. rewrite (set2_get2 _ _ _ _ _ r' c' Hg).
  destruct (decide ((r', c') = (r, c))) as [E|NE]; [|reflexivity].
  injection E as -> ->. now rewrite Es, El.
Qed.

Lemma cell_same self r c r' c' v :
  cell self r c = Ok v ->
  cell self r' c' = if decide ((r', c') = (r, c)) then Ok v else cell self r' c'.
Proof.
  intros H. destruct (decide ((r', c') = (r, c))) as [E|NE]; [|reflexivity].
  now injection E as -> ->.
Qed.

Lemma accumulate_Ok (g : list (list Q)) r c b dt :
  shaped g -> r < rows -> c < cols ->
  exists s g', get2 g r c = Ok s /\
    accumulate g r c b dt = Ok g' /\
    set2 g r c (s + inject_Z b * dt)%Q = Ok g' /\ shaped g'.
Proof.
  intros Hg Hr Hc. destruct (shaped_get2 g r c Hg Hr Hc) as [s Hs].
  destruct (shaped_set2 g r c (s + inject_Z b * dt)%Q Hg Hr Hc) as [g' Hg'].
  exists s, g'. unfold accumulate. rewrite Hs. simpl.
  split; [reflexivity|]. split; [assumption|]. split; [assumption|].
  eapply set2_shaped; eauto.
Qed.

(** *** The periodic tick *)

Lemma _timer_tick_cells self now :
  wf self -> instrument_on self = true -> start_time self <> None ->
  exists self', _timer_tick self now = Ok self' /\ wf self' /\
    (session self', brightness_values self') = (session self, brightness_values self) /\
    forall r c, r < rows -> c < cols ->
      exists v, cell self r c = Ok v /\ cell self' r c = Ok (tick_cell now v).
Proof.
  intros Hwf Hon Hst. unfold _timer_tick. rewrite Hon.
  destruct (start_time self) eqn:Est; [|contradiction]. simpl.
  apply (for_cells_local wf cell (fun s => (session s, brightness_values s)));
    [|assumption].
  clear. intros s r c Hwf Hr Hc.
  destruct (wf_cell s r c Hwf Hr Hc) as (b & acc & l & Hcell).
  pose proof Hcell as (Eb & Es & El)%cell_Ok.
  exists (b, acc, l). rewrite El. simpl.
  destruct l as [l|]; simpl.
  2:{ exists s. split; [assumption|]. split; [reflexivity|].
      split; [assumption|]. split; [reflexivity|]. intros; now apply cell_same. }
  destruct (Qlt_le_dec 0 (now - l)).
  2:{ exists s. split; [assumption|]. split; [reflexivity|].
      split; [assumption|]. split; [reflexivity|]. intros; now apply cell_same. }
  rewrite Eb. simpl.
  destruct Hwf as (Hb & Hs & Hl).
  destruct (accumulate_Ok _ r c b (now - l)%Q Hs Hr Hc) as (s0 & g' & Es0 & Hacc & Hset & Hg').
  rewrite Hacc. simpl. rewrite Es in Es0. injection Es0 as <-.
  destruct (shaped_set2 _ r c (Some now) Hl Hr Hc) as [luts Hluts].
  rewrite Hluts. simpl. eexists. split; [assumption|].
  split; [reflexivity|]. split.
  { split; [exact Hb|]. split; [exact Hg'|]. simpl. eapply set2_shaped; eauto. }
  split; [reflexivity|]. intros r' c'.
  rewrite (cell_set_lut _ r c (Some now) luts r' c' b (acc + inject_Z b * (now - l))%Q (Some l)).
  - destruct (decide _); [reflexivity|]. 
    rewrite (cell_set_sum _ r c _ g' r' c' b acc (Some l) Hcell Hset).
    now rewrite decide_False.
  - rewrite (cell_set_sum _ r c _ g' r c b acc (Some l) Hcell Hset).
    now rewrite decide_True.
  - assumption.
Qed.

(** ** Loops that collect one item per index *)

Lemma for_each_collect {K X Y : Type} (ks : list K) (f : K -> outcome X)
    (j : K -> X -> Y) (h : K -> X) (acc : list Y) :
  (forall k, k ∈ ks -> f k = Ok (h k)) ->
  for_each ks (fun k a => do v <- f k; Ok (a ++ [j k v])) acc
  = Ok (acc ++ ((fun k => j k (h k)) <$> ks)).
Proof.
  revert acc. induction ks as [|k ks IH]; intros acc Hf; simpl.
  - now rewrite app_nil_r.
  - rewrite (Hf k) by left. simpl. rewrite IH.
    + now rewrite <- app_assoc.
    + intros k' Hk'. apply Hf. now right.
Qed.

Lemma cells_of_lookup_from (a n nc i c : nat) :
  i < n -> c < nc ->
  (seq a n ≫= fun r => (fun c => (r, c)) <$> range nc) !! (i * nc + c) = Some (a + i, c).
Proof.
  revert a i. induction n as [|n IH]; intros a i Hi Hc; [lia|].
  cbn [seq mbind list_bind].
  assert (Hlen : length ((fun c0 => (a, c0)) <$> range nc) = nc).
  { unfold range. now rewrite length_fmap, length_seq. }
  destruct i as [|i].
  - rewrite lookup_app_l by (rewrite Hlen; lia).
    rewrite list_lookup_fmap. unfold range. rewrite lookup_seq_lt by lia.
    simpl. do 2 f_equal; lia.
  - rewrite lookup_app_r by (rewrite Hlen; lia). rewrite Hlen.
    replace (S i * nc + c - nc) with (i * nc + c) by lia.
    rewrite (IH (S a) i) by lia. do 2 f_equal. lia.
Qed.

Lemma cells_of_lookup (nr nc r c : nat) :
  r < nr -> c < nc -> cells_of nr nc !! (r * nc + c) = Some (r, c).
Proof. intros Hr Hc. exact (cells_of_lookup_from 0 nr nc r c Hr Hc). Qed.

Lemma length_cells_of (nr nc : nat) : length (cells_of nr nc) = nr * nc.
Proof.
  unfold cells_of. change (range nr) with (seq 0 nr). generalize 0 as a.
  induction nr as [|nr IH]; intros a; [reflexivity|].
  cbn [seq mbind list_bind]. rewrite length_app, IH.
  unfold range. rewrite length_fmap, length_seq. lia.
Qed.

(** ** send_matrix *)

Lemma get2_entry {A : Type} (d : A) (g : list (list A)) (r c : nat) :
  shaped g -> r < rows -> c < cols -> get2 g r c = Ok (entry d g r c).
Proof.
  intros Hg Hr Hc. destruct (shaped_get2 g r c Hg Hr Hc) as [x Hx].
  unfold entry. now rewrite Hx.
Qed.

Lemma matrix_parts_shaped (g : list (list Z)) :
  shaped g -> matrix_parts g = Ok (str <$> wire_values g).
Proof.
  intros Hg. unfold matrix_parts. rewrite for_each_nest.
  fold (cells_of cols rows).
  rewrite (for_each_collect _ (fun p => get2 g p.2 p.1) (fun _ v => str v)
             (fun p => entry 0%Z g p.2 p.1)).
  - unfold wire_values. now rewrite <- list_fmap_compose.
  - intros [col row] Hin. apply elem_of_cells_of in Hin as [Hcol Hrow].
    now apply get2_entry.
Qed.

Lemma transmission_of_shaped (g : list (list Z)) :
  shaped g ->
  transmission_of g = Ok ("<" ++ join "," (str <$> wire_values g) ++ ">")%string.
Proof. intros Hg. unfold transmission_of. now rewrite matrix_parts_shaped. Qed.

Lemma wire_values_lookup (g : list (list Z)) (r c : nat) :
  r < rows -> c < cols -> wire_values g !! (c * rows + r) = Some (entry 0%Z g r c).
Proof.
  intros Hr Hc. unfold wire_values.
  now rewrite list_lookup_fmap, cells_of_lookup.
Qed.

Lemma send_matrix_shaped self :
  shaped (brightness_values self) ->
  exists t, transmission_of (brightness_values self) = Ok t /\
    send_matrix self = Ok (with_log self (log self ++ [EvSend t])).
Proof.
  intros Hg. eexists. split; [now apply transmission_of_shaped|].
  unfold send_matrix. now rewrite transmission_of_shaped.
Qed.

(** [str] writes the decimal numeral: reading it back gives the integer. *)
Lemma str_decimal (z : Z) :
  option_map Z.of_int (NilZero.int_of_string (str z)) = Some z.
Proof.
  unfold str. rewrite NilZero.isi.
  - simpl. f_equal. apply DecimalZ.of_to.
  - destruct z; simpl; try discriminate.
    intros [= H]. now apply DecimalPos.Unsigned.to_uint_nonnil in H.
  - destruct z; simpl; try discriminate.
    intros [= H]. now apply DecimalPos.Unsigned.to_uint_nonnil in H.
Qed.

(** C2.  For every 8x12 brightness matrix, [send_matrix] offers the sink the
    frame made of the character '<', the 96 values written as decimal
    numerals and separated by commas, and '>'; the value of row [r], column
    [c] stands at position [c * 8 + r] (column-major: the columns 0..11 one
    after the other, and inside a column the rows 0..7); each numeral reads
    back as its value; and when the matrix is all zero the frame is '<',
    then 95 times "0,", then "0", then '>'. *)
Theorem send_matrix_wire_format (self : InstrumentUI) :
  shaped (brightness_values self) ->
  exists vals : list Z,
    send_matrix self
      = Ok (with_log self
              (log self ++ [EvSend ("<" ++ join "," (str <$> vals) ++ ">")%string])) /\
    length vals = 96 /\
    (forall r c v, r < 8 -> c < 12 ->
       get2 (brightness_values self) r c = Ok v -> vals !! (c * 8 + r) = Some v) /\
    (forall i v, vals !! i = Some v ->
       option_map Z.of_int (NilZero.int_of_string (str v)) = Some v) /\
    ((forall r c v, get2 (brightness_values self) r c = Ok v -> v = 0%Z) ->
       ("<" ++ join "," (str <$> vals) ++ ">")%string
       = ("<" ++ repeat_string "0," 95 ++ "0" ++ ">")%string).
Proof.
  intros Hg. exists (wire_values (brightness_values self)).
  split; [|split; [|split; [|split]]].
  - unfold send_matrix. now rewrite transmission_of_shaped.
  - unfold wire_values. now rewrite length_fmap, length_cells_of.
  - intros r c v Hr Hc Hv. change 8 with rows. rewrite wire_values_lookup by assumption.
    f_equal. unfold entry. now rewrite Hv.
  - intros i v _. apply str_decimal.
  - intros Hz.
    assert (E : wire_values (brightness_values self) = replicate 96 0%Z).
    { symmetry. apply replicate_as_Forall. split.
      - unfold wire_values. now rewrite length_fmap, length_cells_of.
      - unfold wire_values. apply Forall_fmap, Forall_forall.
        intros [col row] Hin. apply elem_of_cells_of in Hin as [Hcol Hrow].
        simpl. symmetry. apply (Hz row col). now apply get2_entry. }
    rewrite E. reflexivity.
Qed.

Lemma send_matrix_wire_format_witness :
  exists vals : list Z,
    send_matrix fresh_instrument
      = Ok (with_log fresh_instrument
              (log fresh_instrument
                 ++ [EvSend ("<" ++ join "," (str <$> vals) ++ ">")%string])) /\
    length vals = 96 /\
    (forall r c v, r < 8 -> c < 12 ->
       get2 (brightness_values fresh_instrument) r c = Ok v ->
       vals !! (c * 8 + r) = Some v) /\
    (forall i v, vals !! i = Some v ->
       option_map Z.of_int (NilZero.int_of_string (str v)) = Some v) /\
    ((forall r c v, get2 (brightness_values fresh_instrument) r c = Ok v -> v = 0%Z) ->
       ("<" ++ join "," (str <$> vals) ++ ">")%string
       = ("<" ++ repeat_string "0," 95 ++ "0" ++ ">")%string).
Proof.
  apply (send_matrix_wire_format fresh_instrument).
  split; [reflexivity|]. simpl. repeat constructor.
Defined.

(** The order is visible on a matrix whose entries are all different. *)
Example transmission_of_numbered :
  transmission_of
    ((fun r => (fun c => Z.of_nat (r * 12 + c)) <$> range cols) <$> range rows)
  = Ok "<0,12,24,36,48,60,72,84,1,13,25,37,49,61,73,85,2,14,26,38,50,62,74,86,3,15,27,39,51,63,75,87,4,16,28,40,52,64,76,88,5,17,29,41,53,65,77,89,6,18,30,42,54,66,78,90,7,19,31,43,55,67,79,91,8,20,32,44,56,68,80,92,9,21,33,45,57,69,81,93,10,22,34,46,58,70,82,94,11,23,35,47,59,71,83,95>"%string.
Proof. vm_compute. reflexivity. Qed.

Example transmission_of_zero :
  transmission_of (fresh_grid rows cols 0%Z) = Ok zero_frame.
Proof. vm_compute. reflexivity. Qed.

(** ** _turn_on *)

Lemma _turn_on_cells self now wall :
  wf self ->
  exists self' t,
    transmission_of (brightness_values self) = Ok t /\
    _turn_on self now wall = Ok self' /\ wf self' /\
    session self' = (true, Some now, Some wall, log self ++ [EvSend t]) /\
    brightness_values self' = brightness_values self /\
    forall r c, r < rows -> c < cols ->
      exists b, get2 (brightness_values self) r c = Ok b /\
        cell self' r c = Ok (b, 0%Q, Some now).
Proof.
  intros (Hb & Hs & Hl). unfold _turn_on.
  set (self1 := mkInstrumentUI _ _ _ _ _ _ _).
  assert (Hwf1 : wf self1).
  { split; [exact Hb|]. split; [apply shaped_fresh | exact Hl]. }
  destruct (for_cells_local wf cell (fun s => (session s, brightness_values s))
              (fun r c s => do luts <- set2 (last_update_time s) r c (Some now);
                            Ok (with_last_update_time s luts))
              (fun _ _ v => (v.1, Some now))) with (s := self1)
    as (self2 & Hloop & Hwf2 & Hrest & Hcells); [|assumption|].
  { clear. intros s r c Hwf Hr Hc.
    destruct (wf_cell s r c Hwf Hr Hc) as (b & acc & l & Hcell).
    destruct Hwf as (Hb & Hs & Hl).
    destruct (shaped_set2 _ r c (Some now) Hl Hr Hc) as [luts Hluts].
    exists (b, acc, l). rewrite Hluts. simpl. eexists.
    split; [assumption|]. split; [reflexivity|]. split.
    { split; [exact Hb|]. split; [exact Hs|]. simpl. eapply set2_shaped; eauto. }
    split; [reflexivity|]. intros r' c'.
    exact (cell_set_lut s r c (Some now) luts r' c' b acc l Hcell Hluts). }
  rewrite Hloop. simpl. injection Hrest as Hon Hst Hdt Hlog Hbv.
  assert (Hb2 : shaped (brightness_values self2)) by (rewrite Hbv; exact Hb).
  destruct (send_matrix_shaped self2 Hb2) as (t & Ht & Hsend).
  exists (with_log self2 (log self2 ++ [EvSend t])), t.
  rewrite Hbv in Ht. split; [assumption|]. split; [assumption|]. split.
  { exact Hwf2. }
  split. { unfold session. simpl. now rewrite Hon, Hst, Hdt, Hlog. }
  split; [assumption|].
  intros r c Hr Hc. destruct (Hcells r c Hr Hc) as ([[b s] l] & Hv & Hv').
  apply cell_Ok in Hv as (Eb & Es & El). simpl in Eb, Es.
  rewrite get2_fresh in Es by assumption. injection Es as <-.
  exists b. split; [assumption|]. exact Hv'.
Qed.

(** ** _calculate_average and save_session_data *)

Lemma _calculate_average_Ok self r c now :
  wf self -> r < rows -> c < cols -> exists q, _calculate_average self r c now = Ok q.
Proof.
  intros Hwf Hr Hc. destruct (wf_cell self r c Hwf Hr Hc) as (b & s & l & Hcell).
  apply cell_Ok in Hcell as (Eb & Es & El). unfold _calculate_average.
  destruct (is_None (start_time self) && negb (instrument_on self)); [eauto|].
  destruct (Qle_bool _ 0); rewrite ?Eb, ?Es, ?El; simpl; eauto.
Qed.

Lemma save_session_data_Ok self env :
  wf self -> open_raises env = None ->
  save_session_data self env = Ok (with_log self (log self ++ [EvSaved (summary self env)])).
Proof.
  intros Hwf Hopen. unfold save_session_data. rewrite Hopen.
  rewrite for_cells_flat.
  rewrite (for_each_collect _
             (fun p => _calculate_average self p.1 p.2 (clock env p.1 p.2))
             (fun p avg => (p.1, p.2, avg))
             (fun p => average self (clock env p.1 p.2) p.1 p.2)).
  - reflexivity.
  - intros [r c] Hin. apply elem_of_cells_of in Hin as [Hr Hc]. simpl.
    destruct (_calculate_average_Ok self r c (clock env r c) Hwf Hr Hc) as [q Hq].
    unfold average. now rewrite Hq.
Qed.

Lemma try_save_wf self env :
  wf self -> try_save self env = with_log self (log self ++ [save_event self env]).
Proof.
  intros Hwf. unfold try_save, save_event.
  destruct (open_raises env) as [e|] eqn:Hopen.
  - unfold save_session_data. now rewrite Hopen.
  - now rewrite save_session_data_Ok.
Qed.

(** ** _turn_off *)

Lemma final_accumulation_cells self now :
  wf self ->
  exists self', final_accumulation self now = Ok self' /\ wf self' /\
    (session self', brightness_values self', last_update_time self')
    = (session self, brightness_values self, last_update_time self) /\
    forall r c, r < rows -> c < cols ->
      exists v, cell self r c = Ok v /\ cell self' r c = Ok (close_cell now v).
Proof.
  intros Hwf. unfold final_accumulation.
  apply (for_cells_local wf cell
           (fun s => (session s, brightness_values s, last_update_time s)));
    [|assumption].
  clear. intros s r c Hwf Hr Hc.
  destruct (wf_cell s r c Hwf Hr Hc) as (b & acc & l & Hcell).
  pose proof Hcell as (Eb & Es & El)%cell_Ok.
  exists (b, acc, l). rewrite El. simpl.
  destruct l as [l|]; simpl.
  2:{ exists s. split; [assumption|]. split; [reflexivity|].
      split; [assumption|]. split; [reflexivity|]. intros; now apply cell_same. }
  destruct (Qlt_le_dec 0 (now - l)).
  2:{ exists s. split; [assumption|]. split; [reflexivity|].
      split; [assumption|]. split; [reflexivity|]. intros; now apply cell_same. }
  rewrite Eb. simpl. destruct Hwf as (Hb & Hs & Hl).
  destruct (accumulate_Ok _ r c b (now - l)%Q Hs Hr Hc)
    as (s0 & g' & Es0 & Hacc & Hset & Hg').
  rewrite Hacc. simpl. rewrite Es in Es0. injection Es0 as <-.
  eexists. split; [assumption|]. split; [reflexivity|]. split.
  { split; [exact Hb|]. split; [exact Hg'|exact Hl]. }
  split; [reflexivity|]. intros r' c'.
  exact (cell_set_sum s r c _ g' r' c' b acc (Some l) Hcell Hset).
Qed.

Lemma closing_cells self now :
  wf self ->
  exists self', closing self now = Ok self' /\ wf self' /\
    session self'
    = (instrument_on self, start_time self, start_datetime self,
       log self ++ [EvSend zero_frame]) /\
    brightness_values self' = fresh_grid rows cols 0%Z /\
    last_update_time self' = last_update_time self /\
    forall r c, r < rows -> c < cols ->
      exists b s l, cell self r c = Ok (b, s, l) /\
        get2 (brightness_time_sum self') r c = Ok (close_cell now (b, s, l)).1.2.
Proof.
  intros Hwf. unfold closing.
  destruct (final_accumulation_cells self now Hwf) as (s1 & H1 & Hwf1 & Hrest & Hcells).
  rewrite H1. cbn [obind]. injection Hrest as Hon Hst Hdt Hlog Hbv Hlut.
  unfold send_matrix. cbn [brightness_values with_brightness_values].
  rewrite transmission_of_zero. cbn [obind]. eexists. split; [reflexivity|].
  destruct Hwf1 as (Hb1 & Hs1 & Hl1). split.
  { split; [apply shaped_fresh|]. split; assumption. }
  split. { unfold session; simpl. now rewrite Hon, Hst, Hdt, Hlog. }
  split; [reflexivity|]. split; [assumption|].
  intros r c Hr Hc. destruct (Hcells r c Hr Hc) as ([[b s] l] & Hv & Hv').
  exists b, s, l. split; [assumption|].
  destruct (close_cell now (b, s, l)) as [[b' s'] l'].
  apply cell_Ok in Hv' as (_ & Es' & _). exact Es'.
Qed.

Lemma _turn_off_on self now env :
  wf self -> instrument_on self = true ->
  exists mid, closing self now = Ok mid /\ wf mid /\
    _turn_off self now env
    = Ok (mkInstrumentUI false None None (fresh_grid rows cols 0%Z)
            (brightness_time_sum mid) (fresh_grid rows cols None)
            (log self ++ [EvSend zero_frame; save_event mid env])).
Proof.
  intros Hwf Hon. unfold _turn_off. rewrite Hon. simpl.
  destruct (closing_cells self now Hwf) as (mid & Hmid & Hwfm & Hsess & Hbv & Hlut & _).
  exists mid. split; [assumption|]. split; [assumption|].
  rewrite Hmid. simpl. rewrite try_save_wf by assumption.
  unfold clear_session. simpl. rewrite Hbv.
  injection Hsess as _ _ _ ->. now rewrite <- app_assoc.
Qed.

Lemma wf_turned_off (sums : list (list Q)) (l : list io_event) :
  shaped sums ->
  wf (mkInstrumentUI false None None (fresh_grid rows cols 0%Z) sums
        (fresh_grid rows cols None) l).
Proof. intros Hs. split; [apply shaped_fresh|]. split; [exact Hs|apply shaped_fresh]. Qed.

(** ** _on_button_click *)

Lemma _on_button_click_cancel self row col value now :
  wf self -> row < rows -> col < cols ->
  _on_button_click self row col value false now = Ok self.
Proof.
  intros (Hb & _) Hr Hc. unfold _on_button_click.
  destruct (shaped_get2 _ row col Hb Hr Hc) as [b ->]. reflexivity.
Qed.

Lemma _on_button_click_off self row col value now :
  wf self -> row < rows -> col < cols -> instrument_on self = false ->
  exists vals, set2 (brightness_values self) row col value = Ok vals /\
    _on_button_click self row col value true now
    = Ok (with_brightness_values self vals).
Proof.
  intros (Hb & _) Hr Hc Hoff. unfold _on_button_click.
  destruct (shaped_get2 _ row col Hb Hr Hc) as [b ->]. simpl. rewrite Hoff.
  destruct (shaped_set2 _ row col value Hb Hr Hc) as [vals Hvals].
  exists vals. now rewrite Hvals.
Qed.

Lemma _on_button_click_cells self row col value now :
  wf self -> row < rows -> col < cols ->
  exists v self', cell self row col = Ok v /\
    _on_button_click self row col value true now = Ok self' /\ wf self' /\
    (instrument_on self', start_time self', start_datetime self')
    = (instrument_on self, start_time self, start_datetime self) /\
    (if instrument_on self
     then exists t, transmission_of (brightness_values self') = Ok t /\
            log self' = log self ++ [EvSend t]
     else log self' = log self) /\
    forall r' c', cell self' r' c' =
      if decide ((r', c') = (row, col))
      then Ok (click_cell (instrument_on self) value now v)
      else cell self r' c'.
Proof.
  intros Hwf Hr Hc.
  destruct (wf_cell self row col Hwf Hr Hc) as (b & acc & l & Hcell).
  pose proof Hcell as (Eb & Es & El)%cell_Ok.
  pose proof Hwf as (Hb & Hs & Hl).
  exists (b, acc, l).
  destruct (instrument_on self) eqn:Hon.
  2:{ destruct (_on_button_click_off self row col value now Hwf Hr Hc Hon)
        as (vals & Hvals & ->).
      eexists. split; [assumption|]. split; [reflexivity|]. split.
      { split; [|split; assumption]. simpl. eapply set2_shaped; eauto. }
      split; [now rewrite <- Hon|]. split; [reflexivity|]. intros r' c'.
      exact (cell_set_bv self row col value vals r' c' b acc l Hcell Hvals). }
  unfold _on_button_click. rewrite Eb. cbn [obind negb]. rewrite Hon, El. cbn [obind].
  assert (Hsums : exists sums,
    match l with
    | Some l0 =>
        if Qlt_le_dec 0 (now - l0)
        then accumulate (brightness_time_sum self) row col b (now - l0)
        else Ok (brightness_time_sum self)
    | None => Ok (brightness_time_sum self)
    end = Ok sums /\ shaped sums /\
    forall r' c', cell (with_brightness_time_sum self sums) r' c' =
      if decide ((r', c') = (row, col))
      then Ok (b, (click_cell true value now (b, acc, l)).1.2, l)
      else cell self r' c').
  { unfold click_cell. destruct l as [l0|].
    - destruct (Qlt_le_dec 0 (now - l0)).
      + destruct (accumulate_Ok _ row col b (now - l0)%Q Hs Hr Hc)
          as (s0 & g' & Es0 & Hacc & Hset & Hg').
        rewrite Es in Es0. injection Es0 as <-.
        exists g'. split; [assumption|]. split; [assumption|]. intros r' c'.
        exact (cell_set_sum self row col _ g' r' c' b acc (Some l0) Hcell Hset).
      + exists (brightness_time_sum self). split; [reflexivity|].
        split; [assumption|]. intros r' c'. destruct self; simpl.
        now apply cell_same.
    - exists (brightness_time_sum self). split; [reflexivity|].
      split; [assumption|]. intros r' c'. destruct self; simpl.
      now apply cell_same. }
  destruct Hsums as (sums & -> & Hsh & Hcs). cbn [obind].
  destruct (shaped_set2 _ row col (Some now) Hl Hr Hc) as [luts Hluts].
  destruct (shaped_set2 _ row col value Hb Hr Hc) as [vals Hvals].
  rewrite Hluts, Hvals. cbn [obind].
  set (self3 := with_brightness_values _ vals).
  assert (Hb3 : shaped (brightness_values self3)).
  { simpl. eapply set2_shaped; eauto. }
  destruct (send_matrix_shaped self3 Hb3) as (t & Ht & Hsend).
  rewrite Hsend. eexists. split; [assumption|]. split; [reflexivity|]. split.
  { split; [exact Hb3|]. split; [exact Hsh|]. simpl. eapply set2_shaped; eauto. }
  split; [simpl; now rewrite Hon|]. split; [exists t; split; [exact Ht|reflexivity]|].
  intros r' c'.
  change (cell (with_log self3 (log self3 ++ [EvSend t])) r' c')
    with (cell self3 r' c').
  pose proof (Hcs row col) as Hc1. rewrite decide_True in Hc1 by reflexivity.
  pose proof (cell_set_lut (with_brightness_time_sum self sums) row col
                (Some now) luts row col _ _ _ Hc1 Hluts) as Hc2.
  rewrite decide_True in Hc2 by reflexivity.
  unfold self3.
  rewrite (cell_set_bv _ row col value vals r' c' _ _ _ Hc2 Hvals).
  destruct (decide ((r', c') = (row, col))) as [E|NE].
  - f_equal. unfold click_cell. destruct l as [l0|]; [|reflexivity].
    destruct (Qlt_le_dec 0 (now - l0)); reflexivity.
  - rewrite (cell_set_lut _ row col (Some now) luts r' c' _ _ _ Hc1 Hluts).
    rewrite decide_False by assumption. rewrite Hcs.
    now rewrite decide_False by assumption.
Qed.

(* ================================================================= *)
(** * The averaging engine *)

(** The two branches of [_calculate_average] that read the cell. *)
Lemma _calculate_average_degenerate self r c now s b :
  get2 (brightness_values self) r c = Ok b ->
  start_time self = Some s -> (now - s <= 0)%Q ->
  _calculate_average self r c now = Ok (inject_Z b).
Proof.
  intros Eb Hst Hle. unfold _calculate_average. rewrite Hst. cbn [is_None andb].
  apply Qle_bool_iff in Hle. now rewrite Hle, Eb.
Qed.

Lemma _calculate_average_running self r c now s b acc lut :
  cell self r c = Ok (b, acc, Some lut) ->
  start_time self = Some s -> (0 < now - s)%Q ->
  _calculate_average self r c now
  = Ok ((acc + (now - lut) * inject_Z b) / (now - s))%Q.
Proof.
  intros (Eb & Es & El)%cell_Ok Hst Hlt. unfold _calculate_average.
  rewrite Hst. cbn [is_None andb].
  destruct (Qle_bool (now - s) 0) eqn:Hle.
  - apply Qle_bool_iff in Hle. exfalso. apply (Qlt_not_le _ _ Hlt Hle).
  - now rewrite Eb, Es, El.
Qed.

(** C3.  For every cell and every instant [now], [_calculate_average]
    returns 0.0 when the instrument is off and no start time is recorded;
    otherwise, with [total_time = now - start_time] (0.0 when there is no
    start time), it returns the cell's brightness as a float when
    [total_time <= 0], and else [(accumulated + partial) / total_time], where
    [partial] is [(now - last_update_time) * brightness] when the cell's
    last update time is set and 0 when it is not. *)
Theorem _calculate_average_cases (self : InstrumentUI) (r c : nat) (now : Q) :
  wf self -> r < rows -> c < cols ->
  exists (b : Z) (acc : Q) (lut : option Q),
    get2 (brightness_values self) r c = Ok b /\
    get2 (brightness_time_sum self) r c = Ok acc /\
    get2 (last_update_time self) r c = Ok lut /\
    (instrument_on self = false -> start_time self = None ->
       _calculate_average self r c now = Ok 0%Q) /\
    (forall s, start_time self = Some s -> (now - s <= 0)%Q ->
       _calculate_average self r c now = Ok (inject_Z b)) /\
    (instrument_on self = true -> start_time self = None ->
       _calculate_average self r c now = Ok (inject_Z b)) /\
    (forall s, start_time self = Some s -> (0 < now - s)%Q ->
       _calculate_average self r c now
       = Ok ((acc + match lut with
                    | Some l => (now - l) * inject_Z b
                    | None => 0
                    end) / (now - s))%Q).
Proof.
  intros Hwf Hr Hc. destruct (wf_cell self r c Hwf Hr Hc) as (b & acc & lut & Hcell).
  apply cell_Ok in Hcell as (Eb & Es & El). exists b, acc, lut.
  split; [assumption|]. split; [assumption|]. split; [assumption|].
  unfold _calculate_average. split; [|split; [|split]].
  - intros -> ->. reflexivity.
  - intros s -> Hle. cbn [is_None andb].
    apply Qle_bool_iff in Hle. rewrite Hle, Eb. reflexivity.
  - intros -> ->. cbn [is_None andb negb]. rewrite Eb. reflexivity.
  - intros s -> Hlt. cbn [is_None andb].
    destruct (Qle_bool (now - s) 0) eqn:Hle.
    + apply Qle_bool_iff in Hle. exfalso. apply (Qlt_not_le _ _ Hlt Hle).
    + rewrite Eb, Es, El. reflexivity.
Qed.

Lemma wf_fresh_instrument : wf fresh_instrument.
Proof. repeat split; apply shaped_fresh. Qed.

Lemma wf_demo_on : wf demo_on.
Proof. repeat split; repeat constructor. Qed.

Lemma _calculate_average_cases_witness :
  exists (b : Z) (acc : Q) (lut : option Q),
    get2 (brightness_values demo_on) 0 0 = Ok b /\
    get2 (brightness_time_sum demo_on) 0 0 = Ok acc /\
    get2 (last_update_time demo_on) 0 0 = Ok lut /\
    (instrument_on demo_on = false -> start_time demo_on = None ->
       _calculate_average demo_on 0 0 10 = Ok 0%Q) /\
    (forall s, start_time demo_on = Some s -> (10 - s <= 0)%Q ->
       _calculate_average demo_on 0 0 10 = Ok (inject_Z b)) /\
    (instrument_on demo_on = true -> start_time demo_on = None ->
       _calculate_average demo_on 0 0 10 = Ok (inject_Z b)) /\
    (forall s, start_time demo_on = Some s -> (0 < 10 - s)%Q ->
       _calculate_average demo_on 0 0 10
       = Ok ((acc + match lut with
                    | Some l => (10 - l) * inject_Z b
                    | None => 0
                    end) / (10 - s))%Q).
Proof.
  apply (_calculate_average_cases demo_on 0 0 10);
    [exact wf_demo_on | unfold rows; lia | unfold cols; lia].
Defined.

Example demo_on_average : _calculate_average demo_on 0 0 10 = Ok (420 # 10)%Q.
Proof. reflexivity. Qed.

(* ================================================================= *)
(** * The session controller *)

(** C5.  [_turn_on] at instant [now] (wall clock [wall]) records
    [start_time = now] and [start_datetime = wall], sets every cell's
    accumulated weight to 0 and last update time to [now], leaves the
    brightness values as they are, and then sends the current matrix. *)
Theorem _turn_on_starts_session (self : InstrumentUI) (now wall : Q) :
  wf self ->
  exists self' t,
    _turn_on self now wall = Ok self' /\
    instrument_on self' = true /\
    start_time self' = Some now /\
    start_datetime self' = Some wall /\
    brightness_values self' = brightness_values self /\
    transmission_of (brightness_values self) = Ok t /\
    log self' = log self ++ [EvSend t] /\
    forall r c, r < rows -> c < cols ->
      get2 (brightness_time_sum self') r c = Ok 0%Q /\
      get2 (last_update_time self') r c = Ok (Some now).
Proof.
  intros Hwf.
  destruct (_turn_on_cells self now wall Hwf)
    as (self' & t & Ht & Hon & _ & Hsess & Hbv & Hcells).
  injection Hsess as H1 H2 H3 H4. exists self', t.
  repeat (split; [assumption|]).
  intros r c Hr Hc. destruct (Hcells r c Hr Hc) as (b & _ & Hcell).
  apply cell_Ok in Hcell as (_ & Es & El). now split.
Qed.

Lemma _turn_on_starts_session_witness :
  exists self' t,
    _turn_on fresh_instrument 3 7 = Ok self' /\
    instrument_on self' = true /\
    start_time self' = Some 3%Q /\
    start_datetime self' = Some 7%Q /\
    brightness_values self' = brightness_values fresh_instrument /\
    transmission_of (brightness_values fresh_instrument) = Ok t /\
    log self' = log fresh_instrument ++ [EvSend t] /\
    forall r c, r < rows -> c < cols ->
      get2 (brightness_time_sum self') r c = Ok 0%Q /\
      get2 (last_update_time self') r c = Ok (Some 3%Q).
Proof. apply (_turn_on_starts_session fresh_instrument 3 7). exact wf_fresh_instrument. Defined.

(** C6.  [_turn_off] on a running instrument sends the all-zero matrix
    before the session summary is saved, and whether or not the save
    raises, the transition completes: the brightness matrix is all zero,
    the instrument is off, [start_time] and [start_datetime] are cleared
    and every last update time is unset.  A failed save leaves an error
    report where the summary would be. *)
Theorem _turn_off_completes (self : InstrumentUI) (now : Q) (env : save_env) :
  wf self -> instrument_on self = true ->
  exists self' saved,
    _turn_off self now env = Ok self' /\
    log self' = log self ++ [EvSend zero_frame; saved] /\
    match open_raises env with
    | Some e => saved = EvSaveError e
    | None => exists lines, saved = EvSaved lines
    end /\
    brightness_values self' = fresh_grid rows cols 0%Z /\
    instrument_on self' = false /\
    start_time self' = None /\
    start_datetime self' = None /\
    last_update_time self' = fresh_grid rows cols None.
Proof.
  intros Hwf Hon.
  destruct (_turn_off_on self now env Hwf Hon) as (mid & _ & _ & ->).
  eexists. exists (save_event mid env). split; [reflexivity|].
  split; [reflexivity|]. split; [|repeat split].
  unfold save_event. destruct (open_raises env); eauto.
Qed.

Lemma _turn_off_completes_witness :
  exists self' saved,
    _turn_off demo_on 10 failing_env = Ok self' /\
    log self' = log demo_on ++ [EvSend zero_frame; saved] /\
    match open_raises failing_env with
    | Some e => saved = EvSaveError e
    | None => exists lines, saved = EvSaved lines
    end /\
    brightness_values self' = fresh_grid rows cols 0%Z /\
    instrument_on self' = false /\
    start_time self' = None /\
    start_datetime self' = None /\
    last_update_time self' = fresh_grid rows cols None.
Proof.
  apply (_turn_off_completes demo_on 10 failing_env); [exact wf_demo_on | reflexivity].
Defined.

(** C7.  While the instrument is off, an accepted edit of cell [(row, col)]
    changes the brightness of that cell only: the accumulated weights, the
    last update times, the session fields and the output are the same, and
    so is the brightness of every other cell. *)
Theorem _on_button_click_off_frame (self : InstrumentUI) (row col : nat)
    (value : Z) (now : Q) :
  wf self -> row < rows -> col < cols -> instrument_on self = false ->
  exists self',
    _on_button_click self row col value true now = Ok self' /\
    brightness_time_sum self' = brightness_time_sum self /\
    last_update_time self' = last_update_time self /\
    log self' = log self /\
    (instrument_on self', start_time self', start_datetime self')
    = (instrument_on self, start_time self, start_datetime self) /\
    get2 (brightness_values self') row col = Ok value /\
    forall r c, (r, c) <> (row, col) ->
      get2 (brightness_values self') r c = get2 (brightness_values self) r c.
Proof.
  intros Hwf Hr Hc Hoff.
  destruct (_on_button_click_off self row col value now Hwf Hr Hc Hoff)
    as (vals & Hvals & ->).
  eexists. split; [reflexivity|]. repeat (split; [reflexivity|]). simpl. split.
  - rewrite (set2_get2 _ _ _ _ _ row col Hvals). now rewrite decide_True.
  - intros r c Hne. rewrite (set2_get2 _ _ _ _ _ r c Hvals).
    now rewrite decide_False.
Qed.

Lemma _on_button_click_off_frame_witness :
  exists self',
    _on_button_click fresh_instrument 2 5 40 true 9 = Ok self' /\
    brightness_time_sum self' = brightness_time_sum fresh_instrument /\
    last_update_time self' = last_update_time fresh_instrument /\
    log self' = log fresh_instrument /\
    (instrument_on self', start_time self', start_datetime self')
    = (instrument_on fresh_instrument, start_time fresh_instrument,
       start_datetime fresh_instrument) /\
    get2 (brightness_values self') 2 5 = Ok 40%Z /\
    forall r c, (r, c) <> (2, 5) ->
      get2 (brightness_values self') r c
      = get2 (brightness_values fresh_instrument) r c.
Proof.
  apply (_on_button_click_off_frame fresh_instrument 2 5 40 9);
    [exact wf_fresh_instrument | unfold rows; lia | unfold cols; lia | reflexivity].
Defined.

(** C9.  [_turn_off] on an instrument that is off returns at once: the
    state, output included, is the one it was called on, however often it
    is repeated. *)
Theorem _turn_off_when_off (self : InstrumentUI) (now now' : Q) (env env' : save_env) :
  instrument_on self = false ->
  _turn_off self now env = Ok self /\
  (do s <- _turn_off self now env; _turn_off s now' env') = Ok self.
Proof.
  intros Hoff. assert (E : forall t e, _turn_off self t e = Ok self).
  { intros t e. unfold _turn_off. now rewrite Hoff. }
  split; [apply E|]. rewrite E. simpl. apply E.
Qed.

Lemma _turn_off_when_off_witness :
  _turn_off fresh_instrument 5 demo_env = Ok fresh_instrument /\
  (do s <- _turn_off fresh_instrument 5 demo_env; _turn_off s 6 failing_env)
  = Ok fresh_instrument.
Proof. apply (_turn_off_when_off fresh_instrument 5 6 demo_env failing_env). reflexivity. Defined.

(** C10.  Once [_turn_off] has taken a running instrument off,
    [_calculate_average] returns 0.0 for every cell at every instant: the
    averages of the closed session are in the saved summary only. *)
Theorem _calculate_average_after_turn_off (self : InstrumentUI) (now : Q)
    (env : save_env) :
  wf self -> instrument_on self = true ->
  exists self',
    _turn_off self now env = Ok self' /\
    instrument_on self' = false /\ start_time self' = None /\
    forall r c later, _calculate_average self' r c later = Ok 0%Q.
Proof.
  intros Hwf Hon.
  destruct (_turn_off_on self now env Hwf Hon) as (mid & _ & _ & ->).
  eexists. split; [reflexivity|]. repeat split.
Qed.

Lemma _calculate_average_after_turn_off_witness :
  exists self',
    _turn_off demo_on 10 demo_env = Ok self' /\
    instrument_on self' = false /\ start_time self' = None /\
    forall r c later, _calculate_average self' r c later = Ok 0%Q.
Proof.
  apply (_calculate_average_after_turn_off demo_on 10 demo_env);
    [exact wf_demo_on | reflexivity].
Defined.

(** ** Indices read from a well-shaped grid *)

Lemma get2_shaped_range {A : Type} (g : list (list A)) (r c : nat) (v : A) :
  shaped g -> get2 g r c = Ok v -> r < rows /\ c < cols.
Proof.
  intros Hg Hv. apply get2_Ok in Hv as (row & Hrow & Hv). split.
  - destruct Hg as [<- _]. eapply lookup_lt_Some; eauto.
  - rewrite <- (shaped_row g r row Hg Hrow). eapply lookup_lt_Some; eauto.
Qed.

(** ** A session of length zero *)

Lemma summary_lookup self env r c :
  r < rows -> c < cols ->
  summary self env !! (r * cols + c) = Some (r, c, average self (clock env r c) r c).
Proof.
  intros Hr Hc. unfold summary. now rewrite list_lookup_fmap, cells_of_lookup.
Qed.

(** C4, as the code has it.  When [_turn_on] and [_turn_off] happen at the
    same instant [t], no step raises; asked at [t] while the instrument is
    still on, [_calculate_average] returns the cell's brightness as a float
    (30.0 for a cell at 30); the average computed for the summary at close
    also takes the degenerate branch, but [_turn_off] has zeroed the matrix
    by then, so the summary holds 0.0. *)
Theorem zero_length_session_average (self : InstrumentUI) (r c : nat) (b : Z)
    (t wall : Q) (env : save_env) :
  wf self -> r < rows -> c < cols ->
  get2 (brightness_values self) r c = Ok b ->
  open_raises env = None -> (clock env r c == t)%Q ->
  exists s1 s2,
    _turn_on self t wall = Ok s1 /\
    _calculate_average s1 r c t = Ok (inject_Z b) /\
    _turn_off s1 t env = Ok s2 /\
    saved_average (log s2) r c = Some 0%Q.
Proof.
  intros Hwf Hr Hc Hb Hopen Hclock.
  destruct (_turn_on_cells self t wall Hwf)
    as (s1 & fr & _ & Hon & Hwf1 & Hsess & Hbv & Hcells).
  injection Hsess as H1 H2 H3 H4.
  exists s1. 
  destruct (_turn_off_on s1 t env Hwf1 H1) as (mid & Hmid & Hwfm & Hoff).
  eexists. split; [assumption|]. split; [|split; [exact Hoff|]].
  - apply (_calculate_average_degenerate s1 r c t t b); [congruence|assumption|lra].
  - unfold saved_average. cbn [log]. rewrite last_app. cbn [last].
    unfold save_event. rewrite Hopen. rewrite summary_lookup by assumption.
    cbn [fmap option_fmap option_map snd]. f_equal.
    destruct (closing_cells s1 t Hwf1) as (mid' & Hmid' & _ & Hsm & Hbvm & _).
    rewrite Hmid in Hmid'. injection Hmid' as <-.
    injection Hsm as Hm1 Hm2 _ _.
    unfold average.
    rewrite (_calculate_average_degenerate mid r c (clock env r c) t 0%Z);
      [reflexivity| |congruence|lra].
    rewrite Hbvm. now apply get2_fresh.
Qed.

Lemma zero_length_session_average_witness :
  exists s1 s2,
    _turn_on (with_brightness_values fresh_instrument
                (<[0 := <[0 := 30%Z]> (replicate cols 0%Z)]> (fresh_grid rows cols 0%Z)))
      0 0 = Ok s1 /\
    _calculate_average s1 0 0 0 = Ok (inject_Z 30) /\
    _turn_off s1 0 (mkSaveEnv None (fun _ _ => 0%Q)) = Ok s2 /\
    saved_average (log s2) 0 0 = Some 0%Q.
Proof.
  apply (zero_length_session_average _ 0 0 30 0 0 (mkSaveEnv None (fun _ _ => 0%Q))).
  - repeat split; repeat constructor.
  - unfold rows; lia.
  - unfold cols; lia.
  - reflexivity.
  - reflexivity.
  - reflexivity.
Defined.

(** The summary of a zero-length session holds 0.0, not 30.0, for a cell
    that was at 30. *)
Lemma zero_length_session_saves_zero :
  exists s1 s2 s3,
    _on_button_click fresh_instrument 0 0 30 true 0 = Ok s1 /\
    _turn_on s1 0 0 = Ok s2 /\
    _turn_off s2 0 (mkSaveEnv None (fun _ _ => 0%Q)) = Ok s3 /\
    saved_average (log s3) 0 0 = Some 0%Q /\
    ~ (0 == 30)%Q.
Proof.
  do 3 eexists. split; [vm_compute; reflexivity|].
  split; [vm_compute; reflexivity|]. split; [vm_compute; reflexivity|].
  split; [reflexivity|]. discriminate.
Qed.

(* ================================================================= *)
(** * Time accounting *)

(** ** Integrals of trajectories *)

Lemma integral_from_snoc_before (rest : trajectory) (t : Q) (b : Z)
    (now : Q) (b' : Z) (T : Q) :
  (T <= now)%Q ->
  (integral_from t b (rest ++ [(now, b')]) T == integral_from t b rest T)%Q.
Proof.
  intros HT. revert t b. induction rest as [|[t1 b1] rest IH]; intros t b; simpl.
  - rewrite (Q.min_r now T) by assumption. ring.
  - rewrite IH. reflexivity.
Qed.

Lemma integral_from_snoc_after (rest : trajectory) (t : Q) (b : Z)
    (now : Q) (b' : Z) (T : Q) :
  (now <= T)%Q -> (t <= now)%Q -> Forall (fun s => (s.1 <= now)%Q) rest ->
  (integral_from t b (rest ++ [(now, b')]) T
   == integral_from t b rest now + inject_Z b' * (T - now))%Q.
Proof.
  intros HT. revert t b. induction rest as [|[t1 b1] rest IH]; intros t b Ht Hall; simpl.
  - rewrite (Q.min_l now T) by assumption.
    rewrite (Q.min_l t T) by (eapply Qle_trans; eauto).
    rewrite (Q.min_l t now) by assumption. ring.
  - apply Forall_cons in Hall as [Ht1 Hall]. simpl in Ht1.
    rewrite IH by assumption.
    rewrite (Q.min_l t T) by (eapply Qle_trans; eauto).
    rewrite (Q.min_l t now) by assumption.
    rewrite (Q.min_l t1 T) by (eapply Qle_trans; eauto).
    rewrite (Q.min_l t1 now) by assumption. ring.
Qed.

Example integral_two_steps :
  (integral [(0, 50%Z); (10, 100%Z)] 20 == 1500)%Q.
Proof. reflexivity. Qed.

(** ** The accounting invariant *)

Lemma tracks_start (now : Q) (b : Z) : tracks [(now, b)] now b 0 now.
Proof.
  split; [|split; [|split]].
  - repeat constructor. simpl. apply Qle_refl.
  - apply Qle_refl.
  - simpl. rewrite (Q.min_l now now) by apply Qle_refl. ring.
  - intros T HT. simpl. rewrite (Q.min_l now T) by assumption. ring.
Qed.

Lemma tracks_keep (start : Q) (b0 : Z) (rest : trajectory) (tlast now : Q)
    (b : Z) (acc lut : Q) :
  tracks ((start, b0) :: rest) tlast b acc lut -> (tlast <= now)%Q ->
  tracks ((start, b0) :: rest ++ [(now, b)]) now b acc lut.
Proof.
  intros (Hall & Hlut & Hacc & HJ) Hnow.
  assert (Hall' : Forall (fun s => (s.1 <= now)%Q) ((start, b0) :: rest)).
  { eapply Forall_impl; [exact Hall|]. intros s Hs. simpl in Hs |- *. lra. }
  apply Forall_cons in Hall' as [Hstart Hrest]. simpl in Hstart.
  assert (Hlut' : (lut <= now)%Q) by (eapply Qle_trans; eauto).
  split; [|split; [|split]].
  - constructor; [assumption|]. apply Forall_app. split; [assumption|].
    repeat constructor. simpl. apply Qle_refl.
  - assumption.
  - simpl. rewrite integral_from_snoc_before by assumption. exact Hacc.
  - intros T HT. simpl. destruct (Qlt_le_dec T now) as [Hlt|Hge].
    + rewrite integral_from_snoc_before by (apply Qlt_le_weak; assumption).
      exact (HJ T HT).
    + rewrite integral_from_snoc_after by assumption.
      pose proof (HJ now Hlut') as E. simpl in E. rewrite E. ring.
Qed.

Lemma tracks_advance (start : Q) (b0 : Z) (rest : trajectory) (tlast now : Q)
    (b b' : Z) (acc lut : Q) :
  tracks ((start, b0) :: rest) tlast b acc lut -> (tlast <= now)%Q ->
  tracks ((start, b0) :: rest ++ [(now, b')]) now b'
    (acc + inject_Z b * (now - lut))%Q now.
Proof.
  intros (Hall & Hlut & Hacc & HJ) Hnow.
  assert (Hall' : Forall (fun s => (s.1 <= now)%Q) ((start, b0) :: rest)).
  { eapply Forall_impl; [exact Hall|]. intros s Hs. simpl in Hs |- *. lra. }
  apply Forall_cons in Hall' as [Hstart Hrest]. simpl in Hstart.
  assert (Hlut' : (lut <= now)%Q) by (eapply Qle_trans; eauto).
  pose proof (HJ now Hlut') as E. simpl in E.
  split; [|split; [|split]].
  - constructor; [assumption|]. apply Forall_app. split; [assumption|].
    repeat constructor. simpl. apply Qle_refl.
  - apply Qle_refl.
  - simpl. rewrite integral_from_snoc_before by apply Qle_refl.
    symmetry. exact E.
  - intros T HT. simpl. rewrite integral_from_snoc_after by assumption.
    rewrite E. reflexivity.
Qed.

Lemma tracks_acc_eq (tr : trajectory) (tlast : Q) (b : Z) (acc acc' lut : Q) :
  (acc == acc')%Q -> tracks tr tlast b acc lut -> tracks tr tlast b acc' lut.
Proof.
  intros E (Hall & Hlut & Hacc & HJ). split; [assumption|]. split; [assumption|].
  split; [now rewrite <- E|]. intros T HT. rewrite <- E. now apply HJ.
Qed.

Lemma tracks_set (start : Q) (b0 : Z) (rest : trajectory) (tlast now : Q)
    (b b' : Z) (acc lut : Q) :
  tracks ((start, b0) :: rest) tlast b acc lut -> (tlast <= now)%Q ->
  ~ (0 < now - lut)%Q ->
  tracks ((start, b0) :: rest ++ [(now, b')]) now b' acc now.
Proof.
  intros Htr Hnow Hdt.
  apply (tracks_acc_eq _ _ _ (acc + inject_Z b * (now - lut))%Q).
  - destruct Htr as (_ & Hlut & _).
    assert (E : (now - lut == 0)%Q).
    { apply Qle_antisym; [apply Qnot_lt_le; assumption|].
      assert (lut <= now)%Q by (eapply Qle_trans; eauto). lra. }
    rewrite E. ring.
  - now apply tracks_advance with (tlast := tlast).
Qed.

Lemma entry_cell self r c b acc lut :
  cell self r c = Ok (b, acc, lut) -> entry 0%Z (brightness_values self) r c = b.
Proof. intros (Eb & _)%cell_Ok. unfold entry. now rewrite Eb. Qed.

(** Every handler keeps the instrument well shaped and the cell accounted
    for. *)
Lemma step_accounted (r c : nat) (self : InstrumentUI) (tr : trajectory)
    (tlast now : Q) (o : op) :
  wf self -> r < rows -> c < cols -> accounted r c self tr tlast ->
  (tlast <= now)%Q -> op_in_grid o ->
  exists after, step self now o = Ok after /\ wf after /\
    accounted r c after (observe r c now o after tr) now.
Proof.
  intros Hwf Hr Hc Hacc Hnow Hgrid.
  destruct o as [row col value ok| |wall|env]; simpl in Hgrid |- *.
  - (* an edit *)
    destruct Hgrid as [Hrow Hcol]. destruct ok.
    2:{ exists self. split; [now apply _on_button_click_cancel|].
        split; [assumption|]. intros Hon.
        destruct (Hacc Hon) as (start & b0 & rest & b & acc & lut & Hst & -> & Hcell & Htr).
        unfold observe. rewrite (entry_cell _ _ _ _ _ _ Hcell).
        exists start, b0, (rest ++ [(now, b)]), b, acc, lut.
        split; [assumption|]. split; [reflexivity|].
        split; [assumption|]. now apply tracks_keep with (tlast := tlast). }
    destruct (_on_button_click_cells self row col value now Hwf Hrow Hcol)
      as (v & after & Hv & Hclick & Hwf' & Hsess & _ & Hcells).
    exists after. split; [assumption|]. split; [assumption|].
    injection Hsess as Hon' Hst' _. intros Hon. rewrite Hon' in Hon.
    destruct (Hacc Hon) as (start & b0 & rest & b & acc & lut & Hst & -> & Hcell & Htr).
    specialize (Hcells r c). rewrite Hon in Hcells.
    destruct (decide ((r, c) = (row, col))) as [E|NE].
    + injection E as <- <-. rewrite Hcell in Hv. injection Hv as <-.
      unfold click_cell in Hcells.
      destruct (Qlt_le_dec 0 (now - lut)) as [Hdt|Hdt].
      * unfold observe. rewrite (entry_cell _ _ _ _ _ _ Hcells).
        exists start, b0, (rest ++ [(now, value)]), value,
          (acc + inject_Z b * (now - lut))%Q, now.
        split; [congruence|]. split; [reflexivity|].
        split; [assumption|]. now apply tracks_advance with (tlast := tlast).
      * unfold observe. rewrite (entry_cell _ _ _ _ _ _ Hcells).
        exists start, b0, (rest ++ [(now, value)]), value, acc, now.
        split; [congruence|]. split; [reflexivity|].
        split; [assumption|].
        apply tracks_set with (tlast := tlast) (b := b) (lut := lut); auto.
        now apply Qle_not_lt.
    + rewrite Hcell in Hcells.
      unfold observe. rewrite (entry_cell _ _ _ _ _ _ Hcells).
      exists start, b0, (rest ++ [(now, b)]), b, acc, lut.
      split; [congruence|]. split; [reflexivity|].
      split; [assumption|]. now apply tracks_keep with (tlast := tlast).
  - (* a tick *)
    destruct (instrument_on self) eqn:Hon.
    2:{ exists self. split; [unfold _timer_tick; now rewrite Hon|].
        split; [assumption|]. intros Hon'. congruence. }
    destruct (Hacc Hon) as (start & b0 & rest & b & acc & lut & Hst & -> & Hcell & Htr).
    destruct (_timer_tick_cells self now Hwf Hon) as (after & Htick & Hwf' & Hrest & Hcells).
    { congruence. }
    exists after. split; [assumption|]. split; [assumption|].
    injection Hrest as Hon' Hst' _ _ _. intros _.
    destruct (Hcells r c Hr Hc) as (v & Hv & Hv'). rewrite Hcell in Hv.
    injection Hv as <-. unfold tick_cell in Hv'.
    destruct (Qlt_le_dec 0 (now - lut)) as [Hdt|Hdt].
    + unfold observe. rewrite (entry_cell _ _ _ _ _ _ Hv').
      exists start, b0, (rest ++ [(now, b)]), b, (acc + inject_Z b * (now - lut))%Q, now.
      split; [congruence|]. split; [reflexivity|].
      split; [assumption|]. now apply tracks_advance with (tlast := tlast).
    + unfold observe. rewrite (entry_cell _ _ _ _ _ _ Hv').
      exists start, b0, (rest ++ [(now, b)]), b, acc, lut.
      split; [congruence|]. split; [reflexivity|].
      split; [assumption|]. now apply tracks_keep with (tlast := tlast).
  - (* a session start *)
    destruct (_turn_on_cells self now wall Hwf)
      as (after & t & _ & Hon & Hwf' & Hsess & _ & Hcells).
    exists after. split; [assumption|]. split; [assumption|].
    injection Hsess as _ Hst _ _. intros _.
    destruct (Hcells r c Hr Hc) as (b & _ & Hcell).
    unfold observe. rewrite (entry_cell _ _ _ _ _ _ Hcell).
    exists now, b, [], b, 0%Q, now. split; [assumption|]. split; [reflexivity|].
    split; [assumption|]. apply tracks_start.
  - (* a session stop *)
    destruct (instrument_on self) eqn:Hon.
    2:{ exists self. split; [unfold _turn_off; now rewrite Hon|].
        split; [assumption|]. intros Hon'. congruence. }
    destruct (_turn_off_on self now env Hwf Hon) as (mid & _ & Hwfm & ->).
    eexists. split; [reflexivity|]. split.
    + apply wf_turned_off. apply Hwfm.
    + intros Hon'. discriminate Hon'.
Qed.

Lemma last_instant_cons (t now : Q) (o : op) (events : list (Q * op)) :
  last_instant t ((now, o) :: events) = last_instant now events.
Proof.
  unfold last_instant. destruct events as [|e events]; [reflexivity|].
  rewrite last_cons_cons.
  destruct (last (e :: events)) as [[t' o']|] eqn:E; [reflexivity|].
  apply last_None in E. discriminate E.
Qed.

Lemma run_accounted (r c : nat) (events : list (Q * op)) :
  r < rows -> c < cols ->
  forall self tr tlast,
    wf self -> accounted r c self tr tlast ->
    chronological tlast events -> Forall (fun e => op_in_grid e.2) events ->
    exists final tr', run r c self tr events = Ok (final, tr') /\ wf final /\
      accounted r c final tr' (last_instant tlast events).
Proof.
  intros Hr Hc. induction events as [|[now o] events IH];
    intros self tr tlast Hwf Hacc Hchr Hgrid.
  - exists self, tr. split; [reflexivity|]. split; assumption.
  - destruct Hchr as [Hnow Hchr]. apply Forall_cons in Hgrid as [Ho Hgrid].
    destruct (step_accounted r c self tr tlast now o Hwf Hr Hc Hacc Hnow Ho)
      as (after & Hstep & Hwf' & Hacc').
    destruct (IH after (observe r c now o after tr) now Hwf' Hacc' Hchr Hgrid)
      as (final & tr' & Hrun & Hwff & Haccf).
    exists final, tr'. cbn [run]. rewrite Hstep. cbn [obind].
    split; [assumption|]. split; [assumption|]. now rewrite last_instant_cons.
Qed.

(** What is accumulated when the open interval is closed at [now]. *)
Lemma tracks_close (tr : trajectory) (tlast now : Q) (b : Z) (acc lut : Q) :
  tracks tr tlast b acc lut -> (tlast <= now)%Q ->
  ((if Qlt_le_dec 0 (now - lut) then acc + inject_Z b * (now - lut) else acc)
   == integral tr now)%Q.
Proof.
  intros (_ & Hlut & _ & HJ) Hnow.
  assert (Hlut' : (lut <= now)%Q) by (eapply Qle_trans; eauto).
  rewrite (HJ now Hlut'). destruct (Qlt_le_dec 0 (now - lut)) as [Hdt|Hdt].
  - reflexivity.
  - assert (E : (now - lut == 0)%Q) by (apply Qle_antisym; lra).
    rewrite E. ring.
Qed.

(** C1.  Take any run of edits, ticks, session starts and session stops
    whose instants do not decrease, from an instrument that is off, and any
    cell [(r, c)].  If a session is active at the end, then the cell's
    accumulated weight equals the time integral of its brightness from the
    session start to its last update time, and for every later instant
    [now]: the next tick, the next edit of the cell and the session stop
    [_turn_off], whatever the save does, each leave the accumulated weight
    equal to the integral up to [now], the open interval being added once; and
    if [now] is after the session start, [_calculate_average] returns the
    integral up to [now] divided by [now - start_time].  Timestamps and
    sums are exact rationals. *)
Theorem accumulated_weight_is_time_integral (r c : nat) (self0 : InstrumentUI)
    (t0 : Q) (events : list (Q * op)) :
  wf self0 -> instrument_on self0 = false -> r < rows -> c < cols ->
  chronological t0 events -> Forall (fun e => op_in_grid e.2) events ->
  exists final tr,
    run r c self0 [] events = Ok (final, tr) /\
    (instrument_on final = true ->
     exists start b0 rest b acc lut,
       start_time final = Some start /\
       tr = (start, b0) :: rest /\
       get2 (brightness_values final) r c = Ok b /\
       get2 (brightness_time_sum final) r c = Ok acc /\
       get2 (last_update_time final) r c = Ok (Some lut) /\
       (acc == integral tr lut)%Q /\
       forall now, (last_instant t0 events <= now)%Q ->
         (exists s1 acc1,
            _timer_tick final now = Ok s1 /\
            get2 (brightness_time_sum s1) r c = Ok acc1 /\
            (acc1 == integral tr now)%Q) /\
         (forall value, exists s1 acc1,
            _on_button_click final r c value true now = Ok s1 /\
            get2 (brightness_time_sum s1) r c = Ok acc1 /\
            (acc1 == integral tr now)%Q) /\
         (forall env, exists s1 acc1,
            _turn_off final now env = Ok s1 /\
            get2 (brightness_time_sum s1) r c = Ok acc1 /\
            (acc1 == integral tr now)%Q) /\
         ((start < now)%Q ->
          exists avg,
            _calculate_average final r c now = Ok avg /\
            (avg == integral tr now / (now - start))%Q)).
Proof.
  intros Hwf Hoff Hr Hc Hchr Hgrid.
  destruct (run_accounted r c events Hr Hc self0 [] t0 Hwf) as
    (final & tr & Hrun & Hwff & Hacc); auto.
  { intros Hon. congruence. }
  exists final, tr. split; [assumption|]. intros Hon.
  destruct (Hacc Hon) as (start & b0 & rest & b & acc & lut & Hst & Htr & Hcell & Htracks).
  exists start, b0, rest, b, acc, lut.
  pose proof Hcell as (Eb & Es & El)%cell_Ok.
  repeat (split; [assumption|]).
  split; [apply Htracks|]. intros now Hnow.
  pose proof (tracks_close tr _ now b acc lut Htracks Hnow) as Hclose.
  split; [|split; [|split]].
  - destruct (_timer_tick_cells final now Hwff Hon) as (s1 & Htick & _ & _ & Hcells).
    { congruence. }
    destruct (Hcells r c Hr Hc) as (v & Hv & Hv'). rewrite Hcell in Hv.
    injection Hv as <-. unfold tick_cell in Hv'. exists s1.
    destruct (Qlt_le_dec 0 (now - lut));
      apply cell_Ok in Hv' as (_ & Es' & _); eauto.
  - intros value.
    destruct (_on_button_click_cells final r c value now Hwff Hr Hc)
      as (v & s1 & Hv & Hclick & _ & _ & _ & Hcells).
    rewrite Hcell in Hv. injection Hv as <-.
    specialize (Hcells r c). rewrite decide_True in Hcells by reflexivity.
    rewrite Hon in Hcells. unfold click_cell in Hcells. exists s1.
    destruct (Qlt_le_dec 0 (now - lut));
      apply cell_Ok in Hcells as (_ & Es' & _); eauto.
  - intros env.
    destruct (_turn_off_on final now env Hwff Hon) as (mid & Hmid & _ & Hstop).
    destruct (closing_cells final now Hwff) as (s1 & Hclosing & _ & _ & _ & _ & Hcells).
    rewrite Hmid in Hclosing. injection Hclosing as <-.
    destruct (Hcells r c Hr Hc) as (b' & acc' & l' & Hv & Hs1).
    rewrite Hcell in Hv. injection Hv as <- <- <-.
    unfold close_cell in Hs1. eexists. eexists. split; [exact Hstop|].
    cbn [brightness_time_sum]. split; [exact Hs1|].
    destruct (Qlt_le_dec 0 (now - lut)); exact Hclose.
  - intros Hlate.
    eexists. split.
    { apply (_calculate_average_running final r c now start b acc lut);
        [assumption|assumption|lra]. }
    destruct Htracks as (_ & Hlut & _ & HJ).
    rewrite (HJ now) by (eapply Qle_trans; eauto).
    apply Qdiv_comp; [ring|reflexivity].
Qed.

Lemma accumulated_weight_is_time_integral_witness :
  exists final tr,
    run 0 0 fresh_instrument [] demo_events = Ok (final, tr) /\
    instrument_on final = true /\
    exists acc lut,
      get2 (brightness_time_sum final) 0 0 = Ok acc /\
      get2 (last_update_time final) 0 0 = Ok (Some lut) /\
      (acc == integral tr lut)%Q /\
      (exists s1 acc1,
         _timer_tick final 20 = Ok s1 /\
         get2 (brightness_time_sum s1) 0 0 = Ok acc1 /\
         (acc1 == integral tr 20)%Q) /\
      (exists s1 acc1,
         _on_button_click final 0 0 30 true 20 = Ok s1 /\
         get2 (brightness_time_sum s1) 0 0 = Ok acc1 /\
         (acc1 == integral tr 20)%Q) /\
      (exists s1 acc1,
         _turn_off final 20 demo_env = Ok s1 /\
         get2 (brightness_time_sum s1) 0 0 = Ok acc1 /\
         (acc1 == integral tr 20)%Q) /\
      (exists avg,
         _calculate_average final 0 0 20 = Ok avg /\
         (avg == integral tr 20 / (20 - 0))%Q).
Proof.
  destruct (accumulated_weight_is_time_integral 0 0 fresh_instrument 0 demo_events)
    as (final & tr & Hrun & H).
  - exact wf_fresh_instrument.
  - reflexivity.
  - unfold rows; lia.
  - unfold cols; lia.
  - simpl. repeat split; discriminate.
  - repeat constructor; simpl; unfold rows, cols; lia.
  - exists final, tr. split; [exact Hrun|].
    vm_compute in Hrun. injection Hrun as <- _.
    split; [reflexivity|].
    destruct (H eq_refl)
      as (start & b0 & rest & b & acc & lut & Hst & _ & _ & Hacc & Hlut & Hint & Hnext).
    injection Hst as <-.
    destruct (Hnext 20%Q) as (Htick & Hclick & Hoff & Havg).
    { vm_compute. discriminate. }
    exists acc, lut. split; [exact Hacc|]. split; [exact Hlut|].
    split; [exact Hint|]. split; [exact Htick|].
    split; [exact (Hclick 30%Z)|]. split; [exact (Hoff demo_env)|].
    apply Havg. reflexivity.
Defined.

(** At the end of the run above the session is active and cell (0,0) has
    accumulated 50 * 10 + 100 * 5. *)
Example demo_events_accumulated :
  exists final tr acc,
    run 0 0 fresh_instrument [] demo_events = Ok (final, tr) /\
    instrument_on final = true /\
    get2 (brightness_time_sum final) 0 0 = Ok acc /\ (acc == 1000)%Q /\
    get2 (last_update_time final) 0 0 = Ok (Some 15%Q) /\
    (integral tr 15 == 1000)%Q.
Proof.
  do 3 eexists. split; [vm_compute; reflexivity|].
  split; [reflexivity|]. split; [reflexivity|]. split; [reflexivity|].
  split; reflexivity.
Qed.

(** The run above, continued to a stop at 20: the summary holds
    (50 * 10 + 100 * 10) / 20 = 75 for cell (0,0). *)
Example session_average_75 :
  exists final tr q,
    run 0 0 fresh_instrument []
      (demo_events ++ [(20%Q, TurnOff (mkSaveEnv None (fun _ _ => 20%Q)))])
    = Ok (final, tr) /\
    saved_average (log final) 0 0 = Some q /\ (q == 75)%Q /\
    (integral [(0, 0%Z); (0, 50%Z); (1, 50%Z); (10, 100%Z); (15, 100%Z)] 20
     == 1500)%Q.
Proof.
  do 3 eexists. split; [vm_compute; reflexivity|].
  split; [reflexivity|]. split; reflexivity.
Qed.

(* ================================================================= *)
(** * Sequences of handler calls *)

Lemma step_wf (self : InstrumentUI) (now : Q) (o : op) :
  wf self -> op_in_grid o ->
  exists after, step self now o = Ok after /\ wf after.
Proof.
  intros Hwf Hgrid. destruct o as [row col value ok| |wall|env]; simpl in Hgrid |- *.
  - destruct Hgrid as [Hrow Hcol]. destruct ok.
    + destruct (_on_button_click_cells self row col value now Hwf Hrow Hcol)
        as (v & after & _ & Hclick & Hwf' & _).
      eauto.
    + exists self. split; [now apply _on_button_click_cancel|assumption].
  - destruct (instrument_on self) eqn:Hon.
    + destruct (start_time self) as [s|] eqn:Hst.
      * destruct (_timer_tick_cells self now Hwf Hon) as (after & Htick & Hwf' & _).
        { congruence. }
        eauto.
      * exists self. split; [|assumption]. unfold _timer_tick. now rewrite Hon, Hst.
    + exists self. split; [|assumption]. unfold _timer_tick. now rewrite Hon.
  - destruct (_turn_on_cells self now wall Hwf) as (after & t & _ & Hon & Hwf' & _).
    eauto.
  - destruct (instrument_on self) eqn:Hon.
    + destruct (_turn_off_on self now env Hwf Hon) as (mid & _ & Hwfm & ->).
      eexists. split; [reflexivity|]. apply wf_turned_off. apply Hwfm.
    + exists self. split; [|assumption]. unfold _turn_off. now rewrite Hon.
Qed.

(** An invariant of the handlers is an invariant of their sequences. *)
Lemma execute_invariant (P : InstrumentUI -> Prop) (ok_op : op -> Prop) :
  (forall o, ok_op o -> op_in_grid o) ->
  (forall self now o after,
     wf self -> P self -> ok_op o -> step self now o = Ok after -> P after) ->
  forall events self,
    wf self -> P self -> Forall (fun e => ok_op e.2) events ->
    exists final, execute self events = Ok final /\ wf final /\ P final.
Proof.
  intros Hgrid Hstep. induction events as [|[now o] events IH]; intros self Hwf HP Hall.
  - exists self. split; [reflexivity|]. split; assumption.
  - apply Forall_cons in Hall as [Ho Hall]. simpl in Ho.
    destruct (step_wf self now o Hwf (Hgrid o Ho)) as (after & Hs & Hwf').
    destruct (IH after Hwf' (Hstep self now o after Hwf HP Ho Hs) Hall)
      as (final & Hex & Hwff & HPf).
    exists final. cbn [execute]. rewrite Hs. cbn [obind]. auto.
Qed.

Lemma wf___init__ : exists s0, __init__ = Ok s0 /\ wf s0 /\
  s0 = with_log fresh_instrument [EvSend zero_frame].
Proof.
  eexists. split; [vm_compute; reflexivity|]. split; [|reflexivity].
  repeat split; apply shaped_fresh.
Qed.

(** X1.  Whatever in-grid edits, ticks, session starts and session stops
    are applied, in whatever order and at whatever instants, to an
    instrument with 8x12 grids, no handler raises and the grids keep their
    shape. *)
Theorem handlers_never_raise (self : InstrumentUI) (events : list (Q * op)) :
  wf self -> Forall (fun e => op_in_grid e.2) events ->
  exists final, execute self events = Ok final /\ wf final.
Proof.
  intros Hwf Hall.
  destruct (execute_invariant (fun _ => True) op_in_grid) with
    (events := events) (self := self) as (final & Hex & Hwff & _); auto.
  exists final. split; assumption.
Qed.

Lemma handlers_never_raise_witness :
  exists final, execute fresh_instrument demo_events = Ok final /\ wf final.
Proof.
  apply (handlers_never_raise fresh_instrument demo_events).
  - exact wf_fresh_instrument.
  - repeat constructor; simpl; unfold rows, cols; lia.
Defined.


(** ** The session fields agree *)

Lemma get2_lut_of_cell self r c b s l :
  cell self r c = Ok (b, s, l) -> get2 (last_update_time self) r c = Ok l.
Proof. now intros (_ & _ & El)%cell_Ok. Qed.

Lemma step_session_consistent (self : InstrumentUI) (now : Q) (o : op)
    (after : InstrumentUI) :
  wf self -> session_consistent self -> op_in_grid o ->
  step self now o = Ok after -> session_consistent after.
Proof.
  intros Hwf Hcons Hgrid Hstep.
  destruct o as [row col value ok| |wall|env]; simpl in Hgrid, Hstep.
  - destruct Hgrid as [Hrow Hcol]. destruct ok.
    2:{ rewrite _on_button_click_cancel in Hstep by assumption. congruence. }
    destruct (_on_button_click_cells self row col value now Hwf Hrow Hcol)
      as ([[b0 s0] l0] & after' & Hv & Hclick & _ & Hsess & _ & Hcells).
    rewrite Hclick in Hstep. injection Hstep as ->.
    injection Hsess as Hon Hst Hdt. unfold session_consistent in *.
    rewrite Hon, Hst, Hdt. destruct (instrument_on self).
    + destruct Hcons as (H1 & H2 & H3). split; [assumption|]. split; [assumption|].
      intros r c Hr Hc. specialize (Hcells r c).
      destruct (decide ((r, c) = (row, col))) as [E|NE].
      * exists now. unfold click_cell in Hcells.
        destruct l0 as [l0|]; [destruct (Qlt_le_dec 0 (now - l0))|];
          exact (get2_lut_of_cell _ _ _ _ _ _ Hcells).
      * destruct (H3 r c Hr Hc) as [l Hl]. exists l.
        destruct (wf_cell self r c Hwf Hr Hc) as (b & s & l' & Hcell).
        rewrite (get2_lut_of_cell _ _ _ _ _ _ Hcell) in Hl. injection Hl as ->.
        rewrite Hcell in Hcells. exact (get2_lut_of_cell _ _ _ _ _ _ Hcells).
    + destruct Hcons as (H1 & H2 & H3). split; [assumption|]. split; [assumption|].
      intros r c Hr Hc. specialize (Hcells r c).
      destruct (wf_cell self r c Hwf Hr Hc) as (b & s & l' & Hcell).
      pose proof (H3 r c Hr Hc) as Hl.
      rewrite (get2_lut_of_cell _ _ _ _ _ _ Hcell) in Hl. injection Hl as ->.
      destruct (decide ((r, c) = (row, col))) as [E|NE].
      * injection E as -> ->. rewrite Hcell in Hv. injection Hv as <- <- <-.
        exact (get2_lut_of_cell _ _ _ _ _ _ Hcells).
      * rewrite Hcell in Hcells. exact (get2_lut_of_cell _ _ _ _ _ _ Hcells).
  - unfold session_consistent in *. destruct (instrument_on self) eqn:Hon.
    2:{ unfold _timer_tick in Hstep. rewrite Hon in Hstep. injection Hstep as <-.
        now rewrite Hon. }
    destruct Hcons as (H1 & H2 & H3).
    destruct (_timer_tick_cells self now Hwf Hon H1) as (after' & Htick & _ & Hrest & Hcells).
    rewrite Htick in Hstep. injection Hstep as ->.
    injection Hrest as Hon' Hst Hdt _ _. rewrite Hon', Hon, Hst, Hdt.
    split; [assumption|]. split; [assumption|]. intros r c Hr Hc.
    destruct (Hcells r c Hr Hc) as ([[b s] l'] & Hcell & Hcell').
    destruct (H3 r c Hr Hc) as [l Hl].
    rewrite (get2_lut_of_cell _ _ _ _ _ _ Hcell) in Hl. injection Hl as ->.
    unfold tick_cell in Hcell'. destruct (Qlt_le_dec 0 (now - l)).
    + exists now. exact (get2_lut_of_cell _ _ _ _ _ _ Hcell').
    + exists l. exact (get2_lut_of_cell _ _ _ _ _ _ Hcell').
  - destruct (_turn_on_cells self now wall Hwf)
      as (after' & t & _ & Hon & _ & Hsess & _ & Hcells).
    rewrite Hon in Hstep. injection Hstep as ->.
    injection Hsess as H1 H2 H3 _. unfold session_consistent.
    rewrite H1, H2, H3. split; [discriminate|]. split; [discriminate|].
    intros r c Hr Hc. destruct (Hcells r c Hr Hc) as (b & _ & Hcell).
    exists now. exact (get2_lut_of_cell _ _ _ _ _ _ Hcell).
  - destruct (instrument_on self) eqn:Hon.
    + destruct (_turn_off_on self now env Hwf Hon) as (mid & _ & _ & Hoff).
      rewrite Hoff in Hstep. injection Hstep as <-.
      unfold session_consistent. simpl. split; [reflexivity|]. split; [reflexivity|].
      intros r c Hr Hc. now apply get2_fresh.
    + unfold _turn_off in Hstep. rewrite Hon in Hstep. injection Hstep as <-.
      assumption.
Qed.

Lemma session_consistent_fresh : session_consistent fresh_instrument.
Proof.
  split; [reflexivity|]. split; [reflexivity|]. intros r c Hr Hc.
  now apply get2_fresh.
Qed.

(** X2.  After any sequence of in-grid handler calls on an instrument whose
    session fields agree (as they do after construction), they still agree:
    while the instrument is on, [start_time] and [start_datetime] are set
    and every cell has a last update time; while it is off, both are [None]
    and no cell has one. *)
Theorem session_fields_agree (self : InstrumentUI) (events : list (Q * op)) :
  wf self -> session_consistent self ->
  Forall (fun e => op_in_grid e.2) events ->
  exists final, execute self events = Ok final /\
    ((instrument_on final = true /\ start_time final <> None /\
      start_datetime final <> None /\
      forall r c, r < rows -> c < cols ->
        exists l, get2 (last_update_time final) r c = Ok (Some l))
     \/
     (instrument_on final = false /\ start_time final = None /\
      start_datetime final = None /\
      forall r c, r < rows -> c < cols ->
        get2 (last_update_time final) r c = Ok None)).
Proof.
  intros Hwf Hcons Hall.
  destruct (execute_invariant session_consistent op_in_grid) with
    (events := events) (self := self) as (final & Hex & _ & Hfinal); auto.
  { intros s now o after Hs Hc Ho. now apply step_session_consistent. }
  exists final. split; [assumption|]. unfold session_consistent in Hfinal.
  destruct (instrument_on final); [left|right]; split; auto.
Qed.

Lemma session_fields_agree_witness :
  exists final, execute fresh_instrument demo_events = Ok final /\
    ((instrument_on final = true /\ start_time final <> None /\
      start_datetime final <> None /\
      forall r c, r < rows -> c < cols ->
        exists l, get2 (last_update_time final) r c = Ok (Some l))
     \/
     (instrument_on final = false /\ start_time final = None /\
      start_datetime final = None /\
      forall r c, r < rows -> c < cols ->
        get2 (last_update_time final) r c = Ok None)).
Proof.
  apply (session_fields_agree fresh_instrument demo_events).
  - exact wf_fresh_instrument.
  - exact session_consistent_fresh.
  - repeat constructor; simpl; unfold rows, cols; lia.
Defined.

(** ** The device follows the instrument *)

Lemma last_sent_app (l l' : list io_event) :
  last_sent (l ++ l') =
  match last_sent l' with
  | Some t => Some t
  | None => last_sent l
  end.
Proof.
  induction l as [|e l IH]; simpl.
  - now destruct (last_sent l').
  - rewrite IH. now destruct (last_sent l').
Qed.

Lemma step_device_in_sync (self : InstrumentUI) (now : Q) (o : op)
    (after : InstrumentUI) :
  wf self -> device_in_sync self -> op_in_grid o ->
  step self now o = Ok after -> device_in_sync after.
Proof.
  intros Hwf Hsync Hgrid Hstep.
  destruct o as [row col value ok| |wall|env]; simpl in Hgrid, Hstep.
  - destruct Hgrid as [Hrow Hcol]. destruct ok.
    2:{ rewrite _on_button_click_cancel in Hstep by assumption. congruence. }
    destruct (_on_button_click_cells self row col value now Hwf Hrow Hcol)
      as (v & after' & _ & Hclick & _ & Hsess & Hlog & _).
    rewrite Hclick in Hstep. injection Hstep as ->.
    injection Hsess as Hon _ _. unfold device_in_sync in *. rewrite Hon.
    destruct (instrument_on self).
    + destruct Hlog as (t & Ht & Hlog). exists t. split; [assumption|].
      rewrite Hlog, last_sent_app. reflexivity.
    + now rewrite Hlog.
  - destruct (instrument_on self) eqn:Hon.
    2:{ unfold _timer_tick in Hstep. rewrite Hon in Hstep. now injection Hstep as <-. }
    destruct (start_time self) as [s|] eqn:Hst.
    2:{ unfold _timer_tick in Hstep. rewrite Hon, Hst in Hstep. now injection Hstep as <-. }
    destruct (_timer_tick_cells self now Hwf Hon) as (after' & Htick & _ & Hrest & _).
    { congruence. }
    rewrite Htick in Hstep. injection Hstep as ->.
    injection Hrest as Hon' _ _ Hlog Hbv. unfold device_in_sync in *.
    now rewrite Hon', Hlog, Hbv.
  - destruct (_turn_on_cells self now wall Hwf)
      as (after' & t & Ht & Hon & _ & Hsess & Hbv & _).
    rewrite Hon in Hstep. injection Hstep as ->.
    injection Hsess as H1 _ _ Hlog. unfold device_in_sync. rewrite H1.
    exists t. rewrite Hbv. split; [assumption|].
    rewrite Hlog, last_sent_app. reflexivity.
  - destruct (instrument_on self) eqn:Hon.
    + destruct (_turn_off_on self now env Hwf Hon) as (mid & _ & _ & Hoff).
      rewrite Hoff in Hstep. injection Hstep as <-.
      unfold device_in_sync. cbn [instrument_on log]. rewrite last_sent_app.
      unfold save_event. destruct (open_raises env); reflexivity.
    + unfold _turn_off in Hstep. rewrite Hon in Hstep. now injection Hstep as <-.
Qed.

(** X3.  After construction and any sequence of in-grid handler calls, the
    frame offered to the sink last is the frame of the current matrix
    while the instrument is on, and the all-zero frame while it is off
    (edits made while off are staged, not sent). *)
Theorem device_follows_instrument (events : list (Q * op)) :
  Forall (fun e => op_in_grid e.2) events ->
  exists s0 final,
    __init__ = Ok s0 /\ execute s0 events = Ok final /\
    (instrument_on final = true ->
       exists t, transmission_of (brightness_values final) = Ok t /\
         last_sent (log final) = Some t) /\
    (instrument_on final = false -> last_sent (log final) = Some zero_frame).
Proof.
  intros Hall. destruct wf___init__ as (s0 & Hinit & Hwf0 & Hs0).
  destruct (execute_invariant device_in_sync op_in_grid) with
    (events := events) (self := s0) as (final & Hex & _ & Hfinal); auto.
  { intros s now o after Hs Hc Ho. now apply step_device_in_sync. }
  { rewrite Hs0. reflexivity. }
  exists s0, final. split; [assumption|]. split; [assumption|].
  unfold device_in_sync in Hfinal.
  destruct (instrument_on final); split; intros H; try discriminate; assumption.
Qed.

Lemma device_follows_instrument_witness :
  exists s0 final,
    __init__ = Ok s0 /\ execute s0 demo_events = Ok final /\
    (instrument_on final = true ->
       exists t, transmission_of (brightness_values final) = Ok t /\
         last_sent (log final) = Some t) /\
    (instrument_on final = false -> last_sent (log final) = Some zero_frame).
Proof.
  apply (device_follows_instrument demo_events).
  repeat constructor; simpl; unfold rows, cols; lia.
Defined.


(** ** Brightness values and frames stay within the dialog's bounds *)

Lemma _on_button_click_keeps_range self row col value now after :
  wf self -> row < rows -> col < cols ->
  (getInt_min <= value <= getInt_max)%Z -> brightness_in_range self ->
  _on_button_click self row col value true now = Ok after ->
  brightness_in_range after.
Proof.
  intros Hwf Hr Hc Hin Hrange Hclick.
  destruct (_on_button_click_cells self row col value now Hwf Hr Hc)
    as ([[b acc] l] & after' & Hcell & Hclick' & Hwf' & _ & _ & Hcells).
  rewrite Hclick' in Hclick. injection Hclick as ->.
  intros r c v Hv. pose proof Hwf' as (Hb' & _).
  destruct (get2_shaped_range _ r c v Hb' Hv) as [Hr' Hc'].
  destruct (wf_cell after r c Hwf' Hr' Hc') as (b1 & s1 & l1 & Hcell1).
  pose proof Hcell1 as (Eb1 & _)%cell_Ok. rewrite Eb1 in Hv. injection Hv as <-.
  rewrite (Hcells r c) in Hcell1.
  destruct (decide ((r, c) = (row, col))) as [E|NE].
  - assert (b1 = value); [|now subst].
    unfold click_cell in Hcell1. destruct (instrument_on self).
    + destruct l as [l0|]; [destruct (Qlt_le_dec 0 (now - l0))|]; congruence.
    + congruence.
  - apply cell_Ok in Hcell1 as (Eb0 & _). exact (Hrange r c b1 Eb0).
Qed.

Lemma brightness_in_range_zero self :
  brightness_values self = fresh_grid rows cols 0%Z -> brightness_in_range self.
Proof.
  intros E r c v Hv. rewrite E in Hv.
  destruct (get2_shaped_range _ r c v (shaped_fresh 0%Z) Hv) as [Hr Hc].
  rewrite get2_fresh in Hv by assumption. injection Hv as <-.
  unfold getInt_min, getInt_max. lia.
Qed.

Lemma frame_in_range_of_matrix self t :
  wf self -> brightness_in_range self ->
  transmission_of (brightness_values self) = Ok t -> frame_in_range t.
Proof.
  intros (Hb & _) Hrange Ht. rewrite transmission_of_shaped in Ht by assumption.
  injection Ht as <-. exists (wire_values (brightness_values self)).
  split; [|split; [|reflexivity]].
  - unfold wire_values. now rewrite length_fmap, length_cells_of.
  - unfold wire_values. apply Forall_fmap, Forall_forall.
    intros [col row] Hin. apply elem_of_cells_of in Hin as [Hcol Hrow].
    simpl. apply (Hrange row col). now apply get2_entry.
Qed.

Lemma step_in_range (self : InstrumentUI) (now : Q) (o : op) (after : InstrumentUI) :
  wf self -> brightness_in_range self /\ frames_in_range (log self) ->
  op_in_range o -> step self now o = Ok after ->
  brightness_in_range after /\ frames_in_range (log after).
Proof.
  intros Hwf [Hrange Hframes] Hop Hstep.
  destruct o as [row col value ok| |wall|env]; simpl in Hop, Hstep.
  - destruct Hop as (Hrow & Hcol & Hval). destruct ok.
    2:{ rewrite _on_button_click_cancel in Hstep by assumption.
        injection Hstep as <-. now split. }
    specialize (Hval eq_refl).
    pose proof (_on_button_click_keeps_range self row col value now after
                  Hwf Hrow Hcol Hval Hrange Hstep) as Hrange'.
    split; [assumption|].
    destruct (_on_button_click_cells self row col value now Hwf Hrow Hcol)
      as (v & after' & _ & Hclick & Hwf' & _ & Hlog & _).
    rewrite Hclick in Hstep. injection Hstep as ->.
    destruct (instrument_on self).
    + destruct Hlog as (t & Ht & ->). apply Forall_app. split; [assumption|].
      repeat constructor. now apply (frame_in_range_of_matrix after).
    + now rewrite Hlog.
  - destruct (instrument_on self) eqn:Hon.
    2:{ unfold _timer_tick in Hstep. rewrite Hon in Hstep. injection Hstep as <-.
        now split. }
    destruct (start_time self) as [s|] eqn:Hst.
    2:{ unfold _timer_tick in Hstep. rewrite Hon, Hst in Hstep.
        injection Hstep as <-. now split. }
    destruct (_timer_tick_cells self now Hwf Hon) as (after' & Htick & _ & Hrest & _).
    { congruence. }
    rewrite Htick in Hstep. injection Hstep as ->.
    injection Hrest as _ _ _ Hlog Hbv. unfold brightness_in_range.
    now rewrite Hlog, Hbv.
  - destruct (_turn_on_cells self now wall Hwf)
      as (after' & t & Ht & Hon & _ & Hsess & Hbv & _).
    rewrite Hon in Hstep. injection Hstep as ->.
    injection Hsess as _ _ _ Hlog. unfold brightness_in_range. rewrite Hbv, Hlog.
    split; [assumption|]. apply Forall_app. split; [assumption|].
    repeat constructor. now apply (frame_in_range_of_matrix self).
  - destruct (instrument_on self) eqn:Hon.
    + destruct (_turn_off_on self now env Hwf Hon) as (mid & _ & Hwfm & Hoff).
      rewrite Hoff in Hstep. injection Hstep as <-.
      split; [now apply brightness_in_range_zero|]. cbn [log].
      apply Forall_app. split; [assumption|]. constructor.
      * apply (frame_in_range_of_matrix
                 (with_brightness_values fresh_instrument (fresh_grid rows cols 0%Z))).
        -- exact wf_fresh_instrument.
        -- now apply brightness_in_range_zero.
        -- exact transmission_of_zero.
      * constructor; [|constructor]. unfold save_event.
        now destruct (open_raises env).
    + unfold _turn_off in Hstep. rewrite Hon in Hstep. injection Hstep as <-.
      now split.
Qed.

Lemma op_in_range_grid (o : op) : op_in_range o -> op_in_grid o.
Proof. destruct o; simpl; tauto. Qed.

(** X4.  If every value the dialog returns on acceptance lies within its
    bounds 0 and 100, then after construction and any sequence of in-grid
    handler calls every brightness value lies between 0 and 100, and every
    frame that was offered to the sink consists of 96 values between 0
    and 100. *)
Theorem brightness_and_frames_in_range (events : list (Q * op)) :
  Forall (fun e => op_in_range e.2) events ->
  exists s0 final,
    __init__ = Ok s0 /\ execute s0 events = Ok final /\
    (forall r c v, get2 (brightness_values final) r c = Ok v -> (0 <= v <= 100)%Z) /\
    (forall t, EvSend t ∈ log final ->
       exists vals : list Z,
         length vals = 96 /\ Forall (fun v => (0 <= v <= 100)%Z) vals /\
         t = ("<" ++ join "," (str <$> vals) ++ ">")%string).
Proof.
  intros Hall. destruct wf___init__ as (s0 & Hinit & Hwf0 & Hs0).
  destruct (execute_invariant
              (fun s => brightness_in_range s /\ frames_in_range (log s)) op_in_range)
    with (events := events) (self := s0) as (final & Hex & _ & Hrange & Hframes); auto.
  { exact op_in_range_grid. }
  { intros s now o after Hs Hc Ho. now apply step_in_range. }
  { rewrite Hs0. split.
    - now apply brightness_in_range_zero.
    - repeat constructor.
      apply (frame_in_range_of_matrix
               (with_brightness_values fresh_instrument (fresh_grid rows cols 0%Z))).
      + exact wf_fresh_instrument.
      + now apply brightness_in_range_zero.
      + exact transmission_of_zero. }
  exists s0, final. split; [assumption|]. split; [assumption|]. split.
  - exact Hrange.
  - intros t Hin. unfold frames_in_range in Hframes.
    rewrite Forall_forall in Hframes. exact (Hframes _ Hin).
Qed.

Lemma brightness_and_frames_in_range_witness :
  exists s0 final,
    __init__ = Ok s0 /\ execute s0 demo_events = Ok final /\
    (forall r c v, get2 (brightness_values final) r c = Ok v -> (0 <= v <= 100)%Z) /\
    (forall t, EvSend t ∈ log final ->
       exists vals : list Z,
         length vals = 96 /\ Forall (fun v => (0 <= v <= 100)%Z) vals /\
         t = ("<" ++ join "," (str <$> vals) ++ ">")%string).
Proof.
  apply (brightness_and_frames_in_range demo_events).
  repeat constructor; simpl; unfold rows, cols, getInt_min, getInt_max; lia.
Defined.


(** ** The size of a frame *)

Lemma length_string_app (s1 s2 : string) :
  String.length (s1 ++ s2) = String.length s1 + String.length s2.
Proof. induction s1 as [|a s1 IH]; simpl; [reflexivity|now rewrite IH]. Qed.

Lemma length_join_bounds (sep : string) (parts : list string) (lo hi : nat) :
  Forall (fun p => lo <= String.length p <= hi) parts -> parts <> [] ->
  length parts * lo + (length parts - 1) * String.length sep
    <= String.length (join sep parts)
    <= length parts * hi + (length parts - 1) * String.length sep.
Proof.
  unfold join. induction parts as [|p parts IH]; intros Hall Hne; [congruence|].
  apply Forall_cons in Hall as [Hp Hall]. destruct parts as [|p' parts].
  - simpl. lia.
  - specialize (IH Hall). cbn [String.concat]. cbn [String.concat] in IH.
    rewrite !length_string_app.
    assert (Hne' : p' :: parts <> []) by discriminate.
    specialize (IH Hne'). cbn [length] in IH |- *. nia.
Qed.

Lemma length_str_in_range (v : Z) :
  (0 <= v <= 100)%Z -> 1 <= String.length (str v) <= 3.
Proof.
  intros Hv.
  assert (Hall : forallb (fun n => let k := String.length (str (Z.of_nat n)) in
                                   (1 <=? k) && (k <=? 3)) (seq 0 101) = true)
    by (vm_compute; reflexivity).
  rewrite forallb_forall in Hall. specialize (Hall (Z.to_nat v)).
  rewrite Z2Nat.id in Hall by lia. cbv zeta in Hall.
  apply andb_prop in Hall as [H1 H2].
  - apply Nat.leb_le in H1, H2. lia.
  - apply in_seq. lia.
Qed.

(** X5.  The frame of an 8x12 matrix with values between 0 and 100 is
    between 193 and 385 characters long. *)
Theorem transmission_length_bounds (g : list (list Z)) (t : string) :
  shaped g ->
  (forall r c v, get2 g r c = Ok v -> (0 <= v <= 100)%Z) ->
  transmission_of g = Ok t ->
  193 <= String.length t <= 385.
Proof.
  intros Hg Hrange Ht. rewrite transmission_of_shaped in Ht by assumption.
  injection Ht as <-.
  assert (Hlen : length (str <$> wire_values g) = 96).
  { unfold wire_values. now rewrite !length_fmap, length_cells_of. }
  assert (Hall : Forall (fun p => 1 <= String.length p <= 3) (str <$> wire_values g)).
  { unfold wire_values. apply Forall_fmap, Forall_fmap, Forall_forall.
    intros [col row] Hin. apply elem_of_cells_of in Hin as [Hcol Hrow]. simpl.
    apply length_str_in_range. apply (Hrange row col). now apply get2_entry. }
  pose proof (length_join_bounds "," _ 1 3 Hall) as Hj.
  rewrite Hlen in Hj. cbn [append String.length].
  rewrite length_string_app. simpl in Hj |- *.
  assert (Hne : str <$> wire_values g <> []).
  { intros E. rewrite E in Hlen. discriminate Hlen. }
  specialize (Hj Hne). lia.
Qed.

Lemma transmission_length_bounds_witness :
  193 <= String.length zero_frame <= 385.
Proof.
  apply (transmission_length_bounds (fresh_grid rows cols 0%Z) zero_frame).
  - apply shaped_fresh.
  - intros r c v Hv.
    destruct (get2_shaped_range _ r c v (shaped_fresh 0%Z) Hv) as [Hr Hc].
    rewrite get2_fresh in Hv by assumption. injection Hv as <-. lia.
  - vm_compute. reflexivity.
Defined.

Example transmission_length_extremes :
  String.length zero_frame = 193 /\
  (do t <- transmission_of (fresh_grid rows cols 100%Z); Ok (String.length t)) = Ok 385.
Proof. split; vm_compute; reflexivity. Qed.


(** ** Averages stay between 0 and 100 *)

Lemma execute_invariant_timed (P : Q -> InstrumentUI -> Prop) (ok_op : op -> Prop) :
  (forall o, ok_op o -> op_in_grid o) ->
  (forall self t now o after,
     wf self -> P t self -> (t <= now)%Q -> ok_op o ->
     step self now o = Ok after -> P now after) ->
  forall events self t,
    wf self -> P t self -> chronological t events ->
    Forall (fun e => ok_op e.2) events ->
    exists final, execute self events = Ok final /\ wf final /\
      P (last_instant t events) final.
Proof.
  intros Hgrid Hstep. induction events as [|[now o] events IH];
    intros self t Hwf HP Hchr Hall.
  - exists self. split; [reflexivity|]. split; assumption.
  - apply Forall_cons in Hall as [Ho Hall]. simpl in Ho. destruct Hchr as [Hnow Hchr].
    destruct (step_wf self now o Hwf (Hgrid o Ho)) as (after & Hs & Hwf').
    destruct (IH after now Hwf' (Hstep self t now o after Hwf HP Hnow Ho Hs) Hchr Hall)
      as (final & Hex & Hwff & HPf).
    exists final. cbn [execute]. rewrite Hs. cbn [obind].
    rewrite last_instant_cons. auto.
Qed.

Lemma inject_Z_in_range (b : Z) :
  (getInt_min <= b <= getInt_max)%Z -> (0 <= inject_Z b)%Q /\ (inject_Z b <= 100)%Q.
Proof.
  unfold getInt_min, getInt_max. intros [H0 H100].
  rewrite Zle_Qle in H0, H100. split; assumption.
Qed.

Lemma weight_after_interval (b : Z) (acc l s now : Q) :
  (getInt_min <= b <= getInt_max)%Z ->
  (0 <= acc)%Q -> (acc <= 100 * (l - s))%Q -> (0 < now - l)%Q ->
  (0 <= acc + inject_Z b * (now - l))%Q /\
  (acc + inject_Z b * (now - l) <= 100 * (now - s))%Q.
Proof.
  intros Hb H0 H1 Hdt. destruct (inject_Z_in_range b Hb) as [Hb0 Hb1].
  split; nra.
Qed.

Lemma step_brightness_in_range (self : InstrumentUI) (now : Q) (o : op)
    (after : InstrumentUI) :
  wf self -> brightness_in_range self -> op_in_range o ->
  step self now o = Ok after -> brightness_in_range after.
Proof.
  intros Hwf Hrange Hop Hstep.
  destruct o as [row col value ok| |wall|env]; simpl in Hop, Hstep.
  - destruct Hop as (Hrow & Hcol & Hval). destruct ok.
    + apply (_on_button_click_keeps_range self row col value now after); auto.
    + rewrite _on_button_click_cancel in Hstep by assumption.
      now injection Hstep as <-.
  - destruct (instrument_on self) eqn:Hon.
    2:{ unfold _timer_tick in Hstep. rewrite Hon in Hstep. now injection Hstep as <-. }
    destruct (start_time self) as [s|] eqn:Hst.
    2:{ unfold _timer_tick in Hstep. rewrite Hon, Hst in Hstep.
        now injection Hstep as <-. }
    destruct (_timer_tick_cells self now Hwf Hon) as (after' & Htick & _ & Hrest & _).
    { congruence. }
    rewrite Htick in Hstep. injection Hstep as ->.
    injection Hrest as _ _ _ _ Hbv. unfold brightness_in_range. now rewrite Hbv.
  - destruct (_turn_on_cells self now wall Hwf)
      as (after' & t & _ & Hon & _ & _ & Hbv & _).
    rewrite Hon in Hstep. injection Hstep as ->.
    unfold brightness_in_range. now rewrite Hbv.
  - destruct (instrument_on self) eqn:Hon.
    + destruct (_turn_off_on self now env Hwf Hon) as (mid & _ & _ & Hoff).
      rewrite Hoff in Hstep. injection Hstep as <-.
      now apply brightness_in_range_zero.
    + unfold _turn_off in Hstep. rewrite Hon in Hstep.
      now injection Hstep as <-.
Qed.

Lemma step_weights_bounded (self : InstrumentUI) (t now : Q) (o : op)
    (after : InstrumentUI) :
  wf self -> weights_bounded t self -> (t <= now)%Q -> op_in_range o ->
  step self now o = Ok after -> weights_bounded now after.
Proof.
  intros Hwf [Hrange Hw] Hnow Hop Hstep.
  split; [exact (step_brightness_in_range self now o after Hwf Hrange Hop Hstep)|].
  destruct o as [row col value ok| |wall|env]; simpl in Hop, Hstep.
  - destruct Hop as (Hrow & Hcol & Hval). destruct ok.
    2:{ rewrite _on_button_click_cancel in Hstep by assumption.
        injection Hstep as <-. destruct (instrument_on self); [|assumption].
        destruct Hw as (s & Hst & Hs & Hcells). exists s.
        split; [assumption|]. split; [lra|]. intros r c Hr Hc.
        destruct (Hcells r c Hr Hc) as (b & acc & l & Hcell & H1 & H2 & H3 & H4).
        exists b, acc, l. repeat (split; [assumption|]). split; [lra|]. now split. }
    destruct (_on_button_click_cells self row col value now Hwf Hrow Hcol)
      as ([[b0 acc0] l0] & after' & Hv & Hclick & _ & Hsess & _ & Hcells').
    rewrite Hclick in Hstep. injection Hstep as ->.
    injection Hsess as Hon Hst' _. rewrite Hon, Hst'.
    destruct (instrument_on self); [|assumption].
    destruct Hw as (s & Hst & Hs & Hcells). exists s.
    split; [assumption|]. split; [lra|]. intros r c Hr Hc.
    destruct (Hcells r c Hr Hc) as (b & acc & l & Hcell & H1 & H2 & H3 & H4).
    specialize (Hcells' r c). destruct (decide ((r, c) = (row, col))) as [E|NE].
    + injection E as <- <-. rewrite Hcell in Hv. injection Hv as <- <- <-.
      unfold click_cell in Hcells'.
      pose proof Hcell as (Eb & _)%cell_Ok. pose proof (Hrange r c b Eb) as Hb.
      destruct (Qlt_le_dec 0 (now - l)) as [Hdt|Hdt].
      * destruct (weight_after_interval b acc l s now Hb H3 H4 Hdt) as [Ha Hb'].
        exists value, (acc + inject_Z b * (now - l))%Q, now.
        split; [assumption|]. split; [lra|]. split; [lra|]. now split.
      * exists value, acc, now. split; [assumption|].
        split; [lra|]. split; [lra|]. split; [assumption|lra].
    + rewrite Hcell in Hcells'. exists b, acc, l.
      split; [assumption|]. split; [assumption|]. split; [lra|]. now split.
  - destruct (instrument_on self) eqn:Hon.
    2:{ unfold _timer_tick in Hstep. rewrite Hon in Hstep. injection Hstep as <-.
        now rewrite Hon. }
    destruct Hw as (s & Hst & Hs & Hcells).
    destruct (_timer_tick_cells self now Hwf Hon) as (after' & Htick & _ & Hrest & Hcells').
    { congruence. }
    rewrite Htick in Hstep. injection Hstep as ->.
    injection Hrest as Hon' Hst' _ _ _. rewrite Hon', Hon, Hst'. exists s.
    split; [assumption|]. split; [lra|]. intros r c Hr Hc.
    destruct (Hcells r c Hr Hc) as (b & acc & l & Hcell & H1 & H2 & H3 & H4).
    destruct (Hcells' r c Hr Hc) as (v & Hv & Hv'). rewrite Hcell in Hv.
    injection Hv as <-. unfold tick_cell in Hv'.
    pose proof Hcell as (Eb & _)%cell_Ok. pose proof (Hrange r c b Eb) as Hb.
    destruct (Qlt_le_dec 0 (now - l)) as [Hdt|Hdt].
    + destruct (weight_after_interval b acc l s now Hb H3 H4 Hdt) as [Ha Hb'].
      exists b, (acc + inject_Z b * (now - l))%Q, now.
      split; [assumption|]. split; [lra|]. split; [lra|]. now split.
    + exists b, acc, l. split; [assumption|]. split; [assumption|].
      split; [lra|]. now split.
  - destruct (_turn_on_cells self now wall Hwf)
      as (after' & fr & _ & Hon & _ & Hsess & _ & Hcells').
    rewrite Hon in Hstep. injection Hstep as ->.
    injection Hsess as H1 H2 _ _. rewrite H1. exists now.
    split; [assumption|]. split; [lra|]. intros r c Hr Hc.
    destruct (Hcells' r c Hr Hc) as (b & _ & Hcell).
    exists b, 0%Q, now. split; [assumption|]. repeat split; lra.
  - destruct (instrument_on self) eqn:Hon.
    + destruct (_turn_off_on self now env Hwf Hon) as (mid & _ & _ & Hoff).
      rewrite Hoff in Hstep. injection Hstep as <-. reflexivity.
    + unfold _turn_off in Hstep. rewrite Hon in Hstep. injection Hstep as <-.
      now rewrite Hon.
Qed.

(** X6.  Take any sequence of in-grid handler calls whose instants do not
    decrease and whose accepted dialog values lie within 0 and 100, applied
    to an instrument that is off, has no start time and has brightness
    values within 0 and 100.  Then [_calculate_average] returns, for every
    cell and every instant from the last call on, a value between 0 and
    100. *)
Theorem average_between_0_and_100 (self : InstrumentUI) (t0 : Q)
    (events : list (Q * op)) (r c : nat) (now : Q) :
  wf self -> instrument_on self = false -> start_time self = None ->
  (forall r' c' v, get2 (brightness_values self) r' c' = Ok v -> (0 <= v <= 100)%Z) ->
  chronological t0 events -> Forall (fun e => op_in_range e.2) events ->
  r < rows -> c < cols -> (last_instant t0 events <= now)%Q ->
  exists final avg,
    execute self events = Ok final /\
    _calculate_average final r c now = Ok avg /\
    (0 <= avg)%Q /\ (avg <= 100)%Q.
Proof.
  intros Hwf Hoff Hst Hrange Hchr Hall Hr Hc Hnow.
  assert (Hinit : weights_bounded t0 self).
  { split; [exact Hrange|]. now rewrite Hoff. }
  destruct (execute_invariant_timed weights_bounded op_in_range op_in_range_grid
              step_weights_bounded events self t0 Hwf Hinit Hchr Hall)
    as (final & Hex & Hwff & Hrangef & Hw).
  exists final. destruct (instrument_on final) eqn:Hon.
  2:{ exists 0%Q. split; [assumption|]. split; [|split; lra].
      unfold _calculate_average. now rewrite Hw, Hon. }
  destruct Hw as (s & Hsf & Hs & Hcells).
  destruct (Hcells r c Hr Hc) as (b & acc & l & Hcell & H1 & H2 & H3 & H4).
  pose proof Hcell as (Eb & _)%cell_Ok.
  destruct (inject_Z_in_range b (Hrangef r c b Eb)) as [Hb0 Hb1].
  destruct (Qlt_le_dec 0 (now - s)) as [Hpos|Hnonpos].
  - eexists. split; [assumption|]. split.
    { apply (_calculate_average_running final r c now s b acc l); assumption. }
    split.
    + apply Qle_shift_div_l; [assumption|]. nra.
    + apply Qle_shift_div_r; [assumption|]. nra.
  - exists (inject_Z b). split; [assumption|]. split; [|now split].
    apply (_calculate_average_degenerate final r c now s b); assumption.
Qed.

Lemma average_between_0_and_100_witness :
  exists final avg,
    execute fresh_instrument demo_events = Ok final /\
    _calculate_average final 0 0 20 = Ok avg /\
    (0 <= avg)%Q /\ (avg <= 100)%Q.
Proof.
  apply (average_between_0_and_100 fresh_instrument 0 demo_events 0 0 20).
  - exact wf_fresh_instrument.
  - reflexivity.
  - reflexivity.
  - apply (brightness_in_range_zero fresh_instrument). reflexivity.
  - simpl. repeat split; discriminate.
  - repeat constructor; simpl; unfold rows, cols, getInt_min, getInt_max; lia.
  - unfold rows; lia.
  - unfold cols; lia.
  - discriminate.
Defined.


(** ** Ticks and edits *)

Lemma _calculate_average_started self r c now s b acc lut :
  cell self r c = Ok (b, acc, lut) ->
  start_time self = Some s -> (0 < now - s)%Q ->
  _calculate_average self r c now
  = Ok ((acc + match lut with
               | Some l => (now - l) * inject_Z b
               | None => 0
               end) / (now - s))%Q.
Proof.
  intros (Eb & Es & El)%cell_Ok Hst Hlt. unfold _calculate_average.
  rewrite Hst. cbn [is_None andb].
  destruct (Qle_bool (now - s) 0) eqn:Hle.
  - apply Qle_bool_iff in Hle. exfalso. apply (Qlt_not_le _ _ Hlt Hle).
  - now rewrite Eb, Es, El.
Qed.

(** X7.  A tick, at whatever instant, does not change what
    [_calculate_average] returns for any cell at any instant: the interval
    it adds to the accumulated weight is the one the average would have
    counted as the open interval. *)
Theorem _timer_tick_keeps_average (self : InstrumentUI) (now : Q) (r c : nat)
    (T : Q) :
  wf self -> r < rows -> c < cols ->
  exists after q q',
    _timer_tick self now = Ok after /\
    _calculate_average self r c T = Ok q /\
    _calculate_average after r c T = Ok q' /\
    (q == q')%Q.
Proof.
  intros Hwf Hr Hc.
  destruct (_calculate_average_Ok self r c T Hwf Hr Hc) as [q Hq].
  assert (Hsame : _timer_tick self now = Ok self ->
            exists after q0 q', _timer_tick self now = Ok after /\
              _calculate_average self r c T = Ok q0 /\
              _calculate_average after r c T = Ok q' /\ (q0 == q')%Q).
  { intros E. exists self, q, q. rewrite E.
    split; [reflexivity|]. split; [assumption|]. split; [assumption|reflexivity]. }
  destruct (instrument_on self) eqn:Hon.
  2:{ apply Hsame. unfold _timer_tick. now rewrite Hon. }
  destruct (start_time self) as [s|] eqn:Hst.
  2:{ apply Hsame. unfold _timer_tick. now rewrite Hon, Hst. }
  clear Hsame.
  destruct (_timer_tick_cells self now Hwf Hon) as (after & Htick & Hwf' & Hrest & Hcells).
  { congruence. }
  injection Hrest as _ Hst' _ _ _. rewrite Hst in Hst'.
  destruct (Hcells r c Hr Hc) as ([[b acc] lut] & Hcell & Hcell').
  exists after. destruct (Qlt_le_dec 0 (T - s)) as [Hpos|Hnonpos].
  - pose proof (_calculate_average_started self r c T s b acc lut Hcell Hst Hpos) as Hq1.
    unfold tick_cell in Hcell'.
    destruct lut as [l|]; [destruct (Qlt_le_dec 0 (now - l))|].
    + pose proof (_calculate_average_started after r c T s _ _ _ Hcell' Hst' Hpos) as Hq2.
      eexists. eexists. split; [assumption|]. split; [exact Hq1|].
      split; [exact Hq2|]. apply Qdiv_comp; [ring|reflexivity].
    + pose proof (_calculate_average_started after r c T s _ _ _ Hcell' Hst' Hpos) as Hq2.
      eexists. eexists. split; [assumption|]. split; [exact Hq1|].
      split; [exact Hq2|]. reflexivity.
    + pose proof (_calculate_average_started after r c T s _ _ _ Hcell' Hst' Hpos) as Hq2.
      eexists. eexists. split; [assumption|]. split; [exact Hq1|].
      split; [exact Hq2|]. reflexivity.
  - pose proof Hcell as (Eb & _)%cell_Ok.
    assert (Eb' : get2 (brightness_values after) r c = Ok b).
    { unfold tick_cell in Hcell'. destruct lut as [l|];
        [destruct (Qlt_le_dec 0 (now - l))|];
        now apply cell_Ok in Hcell' as (Eb' & _). }
    exists (inject_Z b), (inject_Z b). split; [assumption|].
    split; [now apply (_calculate_average_degenerate self r c T s b)|].
    split; [now apply (_calculate_average_degenerate after r c T s b)|reflexivity].
Qed.

Lemma _timer_tick_keeps_average_witness :
  exists after q q',
    _timer_tick demo_on 9 = Ok after /\
    _calculate_average demo_on 0 0 12 = Ok q /\
    _calculate_average after 0 0 12 = Ok q' /\
    (q == q')%Q.
Proof.
  apply (_timer_tick_keeps_average demo_on 9 0 0 12);
    [exact wf_demo_on | unfold rows; lia | unfold cols; lia].
Defined.

(** X8.  While the instrument is on, an accepted edit of cell [(row, col)]
    stores the value in that cell, closes the cell's open interval at the
    old brightness (when its last update time is earlier than [now]), sets
    its last update time to [now], leaves the three fields of every other
    cell and the session fields as they are, and sends exactly one frame,
    that of the new matrix. *)
Theorem _on_button_click_on_effect (self : InstrumentUI) (row col : nat)
    (value : Z) (now : Q) :
  wf self -> row < rows -> col < cols -> instrument_on self = true ->
  exists after b acc lut t,
    _on_button_click self row col value true now = Ok after /\
    cell self row col = Ok (b, acc, lut) /\
    cell after row col
    = Ok (value,
          match lut with
          | Some l => if Qlt_le_dec 0 (now - l)
                      then (acc + inject_Z b * (now - l))%Q else acc
          | None => acc
          end,
          Some now) /\
    (forall r c, (r, c) <> (row, col) -> cell after r c = cell self r c) /\
    (instrument_on after, start_time after, start_datetime after)
    = (instrument_on self, start_time self, start_datetime self) /\
    transmission_of (brightness_values after) = Ok t /\
    log after = log self ++ [EvSend t].
Proof.
  intros Hwf Hr Hc Hon.
  destruct (_on_button_click_cells self row col value now Hwf Hr Hc)
    as ([[b acc] lut] & after & Hcell & Hclick & _ & Hsess & Hlog & Hcells).
  rewrite Hon in Hlog, Hcells. destruct Hlog as (t & Ht & Hlog).
  exists after, b, acc, lut, t. split; [assumption|]. split; [assumption|].
  split; [|split; [|split; [assumption|split; assumption]]].
  - rewrite (Hcells row col), decide_True by reflexivity. unfold click_cell.
    destruct lut as [l|]; [destruct (Qlt_le_dec 0 (now - l))|]; reflexivity.
  - intros r c Hne. now rewrite (Hcells r c), decide_False.
Qed.

Lemma _on_button_click_on_effect_witness :
  exists after b acc lut t,
    _on_button_click demo_on 3 4 80 true 9 = Ok after /\
    cell demo_on 3 4 = Ok (b, acc, lut) /\
    cell after 3 4
    = Ok (80%Z,
          match lut with
          | Some l => if Qlt_le_dec 0 (9 - l)
                      then (acc + inject_Z b * (9 - l))%Q else acc
          | None => acc
          end,
          Some 9%Q) /\
    (forall r c, (r, c) <> (3, 4) -> cell after r c = cell demo_on r c) /\
    (instrument_on after, start_time after, start_datetime after)
    = (instrument_on demo_on, start_time demo_on, start_datetime demo_on) /\
    transmission_of (brightness_values after) = Ok t /\
    log after = log demo_on ++ [EvSend t].
Proof.
  apply (_on_button_click_on_effect demo_on 3 4 80 9);
    [exact wf_demo_on | unfold rows; lia | unfold cols; lia | reflexivity].
Defined.


(** ** A second tick at the same instant *)

Lemma shaped_ext {A : Type} (g g' : list (list A)) :
  shaped g -> shaped g' ->
  (forall r c, r < rows -> c < cols -> get2 g r c = get2 g' r c) -> g = g'.
Proof.
  intros Hg Hg' Heq. apply list_eq. intros r.
  destruct (decide (r < rows)) as [Hr|Hr].
  - destruct (lookup_lt_is_Some_2 g r) as [row Hrow]; [destruct Hg; lia|].
    destruct (lookup_lt_is_Some_2 g' r) as [row' Hrow']; [destruct Hg'; lia|].
    rewrite Hrow, Hrow'. f_equal. apply list_eq. intros c.
    destruct (decide (c < cols)) as [Hc|Hc].
    + specialize (Heq r c Hr Hc). unfold get2, getitem in Heq.
      rewrite Hrow, Hrow' in Heq. simpl in Heq.
      destruct (row !! c), (row' !! c); congruence.
    + rewrite !lookup_ge_None_2; [reflexivity| |].
      * rewrite (shaped_row g' r row' Hg' Hrow'). lia.
      * rewrite (shaped_row g r row Hg Hrow). lia.
  - destruct Hg as [Hl _], Hg' as [Hl' _].
    rewrite !lookup_ge_None_2; [reflexivity|lia|lia].
Qed.

Lemma instrument_ext (s s' : InstrumentUI) :
  wf s -> wf s' -> session s = session s' ->
  (forall r c, r < rows -> c < cols -> cell s r c = cell s' r c) -> s = s'.
Proof.
  intros (Hb & Hs & Hl) (Hb' & Hs' & Hl') Hsess Hcells.
  destruct s as [on st dt bv sums luts lg], s' as [on' st' dt' bv' sums' luts' lg'].
  injection Hsess as -> -> -> ->. simpl in *.
  assert (Hall : forall r c, r < rows -> c < cols ->
            get2 bv r c = get2 bv' r c /\ get2 sums r c = get2 sums' r c /\
            get2 luts r c = get2 luts' r c).
  { intros r c Hr Hc. specialize (Hcells r c Hr Hc). unfold cell in Hcells.
    simpl in Hcells.
    destruct (shaped_get2 bv r c Hb Hr Hc) as [x1 E1].
    destruct (shaped_get2 sums r c Hs Hr Hc) as [x2 E2].
    destruct (shaped_get2 luts r c Hl Hr Hc) as [x3 E3].
    destruct (shaped_get2 bv' r c Hb' Hr Hc) as [y1 F1].
    destruct (shaped_get2 sums' r c Hs' Hr Hc) as [y2 F2].
    destruct (shaped_get2 luts' r c Hl' Hr Hc) as [y3 F3].
    rewrite E1, E2, E3, F1, F2, F3 in Hcells |- *. simpl in Hcells.
    injection Hcells as -> -> ->. auto. }
  f_equal; apply shaped_ext; auto; intros r c Hr Hc; now apply Hall.
Qed.

(** X9.  A second tick at the instant of the first changes nothing: the
    first has moved every last update time that was earlier up to that
    instant, so the second finds no interval to add. *)
Theorem _timer_tick_twice (self : InstrumentUI) (now : Q) :
  wf self ->
  exists after, _timer_tick self now = Ok after /\ _timer_tick after now = Ok after.
Proof.
  intros Hwf. destruct (instrument_on self) eqn:Hon.
  2:{ exists self. unfold _timer_tick. rewrite Hon. now split. }
  destruct (start_time self) as [s|] eqn:Hst.
  2:{ exists self. unfold _timer_tick. rewrite Hon, Hst. now split. }
  destruct (_timer_tick_cells self now Hwf Hon) as (after & Htick & Hwf' & Hrest & Hcells).
  { congruence. }
  exists after. split; [assumption|].
  injection Hrest as Hon' Hst' Hdt' Hlog' Hbv'.
  destruct (_timer_tick_cells after now Hwf') as (after2 & Htick2 & Hwf2 & Hrest2 & Hcells2).
  { congruence. }
  { congruence. }
  rewrite Htick2. f_equal. injection Hrest2 as Hon2 Hst2 Hdt2 Hlog2 Hbv2.
  apply instrument_ext; auto.
  { unfold session. congruence. }
  intros r c Hr Hc. destruct (Hcells r c Hr Hc) as ([[b acc] lut] & Hv & Hv').
  destruct (Hcells2 r c Hr Hc) as (v2 & Hv2 & Hv2').
  rewrite Hv' in Hv2. injection Hv2 as <-. rewrite Hv2', Hv'. f_equal.
  unfold tick_cell. destruct lut as [l|]; [|reflexivity].
  destruct (Qlt_le_dec 0 (now - l)) as [Hdt|Hdt].
  - destruct (Qlt_le_dec 0 (now - now)) as [Habs|_]; [|reflexivity].
    exfalso. lra.
  - destruct (Qlt_le_dec 0 (now - l)) as [Habs|_]; [|reflexivity].
    exfalso. lra.
Qed.

Lemma _timer_tick_twice_witness :
  exists after, _timer_tick demo_on 9 = Ok after /\ _timer_tick after 9 = Ok after.
Proof. apply (_timer_tick_twice demo_on 9). exact wf_demo_on. Defined.

(** ** The session summary *)

(** X10.  On a well-shaped instrument [save_session_data] raises what
    opening the log file raises, before anything is computed; otherwise it
    writes one line per cell, 96 in all, rows outside and columns inside
    (the line of cell [(r, c)] is line [r * 12 + c], unlike the wire
    order), each with what [_calculate_average] returns for the cell at the
    clock read of that line, and changes nothing else. *)
Theorem save_session_data_lines (self : InstrumentUI) (env : save_env) :
  wf self ->
  match open_raises env with
  | Some e => save_session_data self env = Raise e
  | None =>
      exists lines,
        save_session_data self env
        = Ok (with_log self (log self ++ [EvSaved lines])) /\
        length lines = 96 /\
        forall r c, r < rows -> c < cols ->
          exists q, _calculate_average self r c (clock env r c) = Ok q /\
            lines !! (r * 12 + c) = Some (r, c, q)
  end.
Proof.
  intros Hwf. destruct (open_raises env) as [e|] eqn:Hopen.
  - unfold save_session_data. now rewrite Hopen.
  - exists (summary self env). split; [now apply save_session_data_Ok|]. split.
    + unfold summary. now rewrite length_fmap, length_cells_of.
    + intros r c Hr Hc.
      destruct (_calculate_average_Ok self r c (clock env r c) Hwf Hr Hc) as [q Hq].
      exists q. split; [assumption|]. change 12 with cols.
      rewrite summary_lookup by assumption. unfold average. now rewrite Hq.
Qed.

Lemma save_session_data_lines_witness :
  match open_raises demo_env with
  | Some e => save_session_data demo_on demo_env = Raise e
  | None =>
      exists lines,
        save_session_data demo_on demo_env
        = Ok (with_log demo_on (log demo_on ++ [EvSaved lines])) /\
        length lines = 96 /\
        forall r c, r < rows -> c < cols ->
          exists q, _calculate_average demo_on r c (clock demo_env r c) = Ok q /\
            lines !! (r * 12 + c) = Some (r, c, q)
  end.
Proof. apply (save_session_data_lines demo_on demo_env). exact wf_demo_on. Defined.


(** X11.  Take a run as in C1 that ends with a session active, and stop the
    session at an instant [now] not earlier than the run's last.  If the
    log file opens and the clock read for the line of cell [(r, c)] is
    after the session start, the average saved for the cell is the time
    integral of its brightness from the session start to [now], divided by
    the time from the session start to that clock read (not to [now]). *)
Theorem saved_average_is_integral_over_save_time (r c : nat)
    (self0 : InstrumentUI) (t0 : Q) (events : list (Q * op)) (now : Q)
    (env : save_env) :
  wf self0 -> instrument_on self0 = false -> r < rows -> c < cols ->
  chronological t0 events -> Forall (fun e => op_in_grid e.2) events ->
  (last_instant t0 events <= now)%Q -> open_raises env = None ->
  exists final tr,
    run r c self0 [] events = Ok (final, tr) /\
    (instrument_on final = true ->
     exists start after q,
       start_time final = Some start /\
       _turn_off final now env = Ok after /\
       ((start < clock env r c)%Q ->
        saved_average (log after) r c = Some q /\
        (q == integral tr now / (clock env r c - start))%Q)).
Proof.
  intros Hwf Hoff Hr Hc Hchr Hgrid Hnow Hopen.
  destruct (run_accounted r c events Hr Hc self0 [] t0 Hwf) as
    (final & tr & Hrun & Hwff & Hacc); auto.
  { intros Hon. congruence. }
  exists final, tr. split; [assumption|]. intros Hon.
  destruct (Hacc Hon) as (start & b0 & rest & b & acc & lut & Hst & Htr & Hcell & Htracks).
  destruct (_turn_off_on final now env Hwff Hon) as (mid & Hmid & Hwfm & Hoff').
  destruct (closing_cells final now Hwff)
    as (mid' & Hmid' & _ & Hsess & Hbv & Hlut & Hsums).
  rewrite Hmid in Hmid'. injection Hmid' as <-.
  destruct (Hsums r c Hr Hc) as (b' & acc' & l' & Hcell' & Hsum).
  rewrite Hcell in Hcell'. injection Hcell' as <- <- <-.
  injection Hsess as Hon' Hst' _ _.
  set (acc1 := (close_cell now (b, acc, Some lut)).1.2) in Hsum.
  assert (Hcellm : cell mid r c = Ok (0%Z, acc1, Some lut)).
  { apply cell_Ok. split; [|split].
    - rewrite Hbv. now apply get2_fresh.
    - exact Hsum.
    - rewrite Hlut. now apply cell_Ok in Hcell as (_ & _ & El). }
  assert (Hacc1 : (acc1 == integral tr now)%Q).
  { unfold acc1, close_cell.
    pose proof (tracks_close tr _ now b acc lut Htracks Hnow) as Hclose.
    destruct (Qlt_le_dec 0 (now - lut)); exact Hclose. }
  eexists start, _, _. split; [assumption|]. split; [exact Hoff'|].
  intros Hlate. unfold saved_average. cbn [log]. rewrite last_app. cbn [last].
  unfold save_event. rewrite Hopen. rewrite summary_lookup by assumption.
  cbn [fmap option_fmap option_map snd]. unfold average.
  rewrite (_calculate_average_running mid r c (clock env r c) start 0%Z acc1 lut);
    [|assumption|congruence|lra].
  split; [reflexivity|]. rewrite Hacc1. apply Qdiv_comp; [ring|reflexivity].
Qed.

Lemma saved_average_is_integral_over_save_time_witness :
  exists final tr,
    run 0 0 fresh_instrument [] demo_events = Ok (final, tr) /\
    (instrument_on final = true ->
     exists start after q,
       start_time final = Some start /\
       _turn_off final 20 (mkSaveEnv None (fun _ _ => 25%Q)) = Ok after /\
       ((start < clock (mkSaveEnv None (fun _ _ => 25%Q)) 0 0)%Q ->
        saved_average (log after) 0 0 = Some q /\
        (q == integral tr 20 / (clock (mkSaveEnv None (fun _ _ => 25%Q)) 0 0 - start))%Q)).
Proof.
  apply (saved_average_is_integral_over_save_time 0 0 fresh_instrument 0
           demo_events 20 (mkSaveEnv None (fun _ _ => 25%Q))).
  - exact wf_fresh_instrument.
  - reflexivity.
  - unfold rows; lia.
  - unfold cols; lia.
  - simpl. repeat split; discriminate.
  - repeat constructor; simpl; unfold rows, cols; lia.
  - discriminate.
  - reflexivity.
Defined.

(** A save whose clock reads 25 after a stop at 20 reports 1500 / 25 = 60
    for the session of [session_average_75]. *)
Example saved_average_diluted :
  exists final tr q,
    run 0 0 fresh_instrument []
      (demo_events ++ [(20%Q, TurnOff (mkSaveEnv None (fun _ _ => 25%Q)))])
    = Ok (final, tr) /\
    saved_average (log final) 0 0 = Some q /\ (q == 60)%Q.
Proof.
  do 3 eexists. split; [vm_compute; reflexivity|]. split; reflexivity.
Qed.

(** ** The ON/OFF button *)

(** X12.  [_toggle_instrument] on a well-shaped instrument does not raise
    and inverts [instrument_on]: off, it starts a session as [_turn_on]
    does; on, it stops the session as [_turn_off] does. *)
Theorem _toggle_instrument_flips (self : InstrumentUI) (now wall : Q)
    (env : save_env) :
  wf self ->
  exists after,
    _toggle_instrument self now wall env = Ok after /\ wf after /\
    instrument_on after = negb (instrument_on self) /\
    (instrument_on self = false -> _turn_on self now wall = Ok after) /\
    (instrument_on self = true -> _turn_off self now env = Ok after).
Proof.
  intros Hwf. unfold _toggle_instrument. destruct (instrument_on self) eqn:Hon; simpl.
  - destruct (_turn_off_on self now env Hwf Hon) as (mid & _ & Hwfm & Hoff).
    rewrite Hoff. eexists. split; [reflexivity|]. split.
    { apply wf_turned_off. apply Hwfm. }
    split; [reflexivity|]. split; [discriminate|reflexivity].
  - destruct (_turn_on_cells self now wall Hwf) as (after & t & _ & Hturn & Hwf' & Hsess & _).
    exists after. injection Hsess as H1 _ _ _.
    split; [assumption|]. split; [assumption|]. split; [assumption|].
    split; [intros _; assumption|discriminate].
Qed.

Lemma _toggle_instrument_flips_witness :
  exists after,
    _toggle_instrument demo_on 9 9 demo_env = Ok after /\ wf after /\
    instrument_on after = negb (instrument_on demo_on) /\
    (instrument_on demo_on = false -> _turn_on demo_on 9 9 = Ok after) /\
    (instrument_on demo_on = true -> _turn_off demo_on 9 demo_env = Ok after).
Proof. apply (_toggle_instrument_flips demo_on 9 9 demo_env). exact wf_demo_on. Defined.




(* ================================================================= *)
(** * Presentation *)

Example _button_style_50 :
  _button_style 50 = Some (style_sheet "rgb(255,255,0)" "font-style: normal;").
Proof. vm_compute. reflexivity. Qed.

Example _timer_tick_label_demo :
  _timer_tick_label demo_on (7451 # 2) = "Running time: 01:02:05"%string.
Proof. vm_compute. reflexivity. Qed.


Lemma button_rgb_bounds (brightness : Z) :
  (0 <= brightness <= 100)%Z ->
  let '(r, g, b) := button_rgb brightness in
  (0 <= r <= 255)%Z /\ (0 <= g <= 255)%Z /\ b = 0%Z /\ (r = 255%Z \/ g = 255%Z).
Proof.
  intros H. unfold button_rgb. destruct (brightness <=? 50)%Z eqn:E.
  - apply Z.leb_le in E. repeat split; try lia.
    + apply Z.div_pos; lia.
    + apply Z.div_le_upper_bound; lia.
  - apply Z.leb_gt in E.
    assert (0 <= (255 * (brightness - 50) + 49) / 50 <= 255)%Z.
    { split; [apply Z.div_pos; lia|].
      apply Z.lt_succ_r. apply Z.div_lt_upper_bound; lia. }
    repeat split; lia.
Qed.

(** X14.  For every brightness from 0 to 100 [_button_style] returns the
    style sheet, and the colour its floating-point arithmetic produces is
    the one of exact arithmetic: grey in italics for 0; otherwise red 255
    and green [floor (255 * brightness / 50)] up to 50, and green 255 and
    red [255 - ceil (255 * (brightness - 50) / 50)] above 50; every
    component lies between 0 and 255. *)
Theorem _button_style_colours (brightness : Z) :
  (0 <= brightness <= 100)%Z ->
  exists r g : Z,
    (r, g, 0%Z) = button_rgb brightness /\
    (0 <= r <= 255)%Z /\ (0 <= g <= 255)%Z /\ (r = 255%Z \/ g = 255%Z) /\
    _button_style brightness
    = Some (if (brightness =? 0)%Z
            then style_sheet "rgb(100,100,100)" "font-style: italic;"
            else style_sheet (rgb_text r g 0) "font-style: normal;").
Proof.
  intros H. pose proof (button_rgb_bounds brightness H) as Hb.
  destruct (button_rgb brightness) as [[r g] b] eqn:E.
  destruct Hb as (Hr & Hg & -> & Hor). exists r, g.
  split; [reflexivity|]. split; [assumption|]. split; [assumption|].
  split; [assumption|].
  assert (Hall : forallb
            (fun n =>
               let z := Z.of_nat n in
               match _button_style z, button_rgb z with
               | Some s, (r0, g0, _) =>
                   String.eqb s
                     (if (z =? 0)%Z
                      then style_sheet "rgb(100,100,100)" "font-style: italic;"
                      else style_sheet (rgb_text r0 g0 0) "font-style: normal;")
               | None, _ => false
               end) (seq 0 101) = true)
    by (vm_compute; reflexivity).
  rewrite forallb_forall in Hall. specialize (Hall (Z.to_nat brightness)).
  rewrite Z2Nat.id in Hall by lia. cbv zeta in Hall. rewrite E in Hall.
  destruct (_button_style brightness) as [s|].
  - f_equal. apply String.eqb_eq. apply Hall. apply in_seq. lia.
  - discriminate Hall. apply in_seq. lia.
Qed.

Lemma _button_style_colours_witness :
  exists r g : Z,
    (r, g, 0%Z) = button_rgb 30 /\
    (0 <= r <= 255)%Z /\ (0 <= g <= 255)%Z /\ (r = 255%Z \/ g = 255%Z) /\
    _button_style 30
    = Some (if (30 =? 0)%Z
            then style_sheet "rgb(100,100,100)" "font-style: italic;"
            else style_sheet (rgb_text r g 0) "font-style: normal;").
Proof. apply (_button_style_colours 30). lia. Defined.

(** Outside 0..100 the components leave 0..255. *)
Example _button_style_150 :
  _button_style 150 = Some (style_sheet "rgb(-255,255,0)" "font-style: normal;").
Proof. vm_compute. reflexivity. Qed.

Lemma int_of_Q_floor (x : Q) : (0 <= x)%Q -> int_of_Q x = Qfloor x.
Proof.
  intros Hx. destruct x as [n d]. unfold int_of_Q, Qfloor. simpl.
  unfold Qle in Hx. simpl in Hx. apply Z.quot_div_nonneg; lia.
Qed.

Lemma length_format_02 (n : Z) :
  (0 <= n < 60)%Z -> String.length (format_02 n) = 2.
Proof.
  intros Hn.
  assert (Hall : forallb (fun k => String.length (format_02 (Z.of_nat k)) =? 2)
                   (seq 0 60) = true) by (vm_compute; reflexivity).
  rewrite forallb_forall in Hall. specialize (Hall (Z.to_nat n)).
  rewrite Z2Nat.id in Hall by lia. apply Nat.eqb_eq. apply Hall.
  apply in_seq. lia.
Qed.

(** X15.  While the instrument is off, [_timer_tick] shows
    "Running time: 0s".  While it is on and the clock is not before the
    session start, it shows hours, minutes and seconds of the whole seconds
    elapsed since the start: the three fields add up to the elapsed time
    rounded down, minutes and seconds lie between 0 and 59 and take two
    characters each, and hours are not bounded. *)
Theorem _timer_tick_label_fields (self : InstrumentUI) (now : Q) :
  (instrument_on self = false ->
   _timer_tick_label self now = "Running time: 0s"%string) /\
  (forall start, instrument_on self = true -> start_time self = Some start ->
     (start <= now)%Q ->
     exists e h m s : Z,
       _timer_tick_label self now
       = ("Running time: " ++ format_02 h ++ ":" ++ format_02 m ++ ":"
          ++ format_02 s)%string /\
       (inject_Z e <= now - start)%Q /\ (now - start < inject_Z e + 1)%Q /\
       e = (3600 * h + 60 * m + s)%Z /\
       (0 <= h)%Z /\ (0 <= m < 60)%Z /\ (0 <= s < 60)%Z /\
       String.length (format_02 m) = 2 /\ String.length (format_02 s) = 2).
Proof.
  split.
  - intros Hoff. unfold _timer_tick_label. now rewrite Hoff.
  - intros start Hon Hst Hle. unfold _timer_tick_label. rewrite Hon, Hst.
    cbn [negb is_None orb].
    assert (Hpos : (0 <= now - start)%Q) by lra.
    rewrite (int_of_Q_floor _ Hpos). set (e := Qfloor (now - start)).
    assert (He : (0 <= e)%Z).
    { unfold e. change 0%Z with (Qfloor 0). now apply Qfloor_resp_le. }
    exists e, (e / 3600)%Z, (e mod 3600 / 60)%Z, ((e mod 3600) mod 60)%Z.
    pose proof (Z.mod_pos_bound e 3600 ltac:(lia)) as H1.
    pose proof (Z.mod_pos_bound (e mod 3600) 60 ltac:(lia)) as H2.
    pose proof (Z.div_mod e 3600 ltac:(lia)) as H3.
    pose proof (Z.div_mod (e mod 3600) 60 ltac:(lia)) as H4.
    assert (Hm : (0 <= e mod 3600 / 60 < 60)%Z).
    { split; [apply Z.div_pos; lia|apply Z.div_lt_upper_bound; lia]. }
    split; [reflexivity|]. split; [apply Qfloor_le|].
    split.
    { pose proof (Qlt_floor (now - start)) as Hlt.
      rewrite inject_Z_plus in Hlt. exact Hlt. }
    split; [lia|]. split; [apply Z.div_pos; lia|]. split; [assumption|].
    split; [assumption|]. split; apply length_format_02; assumption.
Qed.

Lemma _timer_tick_label_fields_witness :
  exists e h m s : Z,
    _timer_tick_label demo_on 100
    = ("Running time: " ++ format_02 h ++ ":" ++ format_02 m ++ ":"
       ++ format_02 s)%string /\
    (inject_Z e <= 100 - 0)%Q /\ (100 - 0 < inject_Z e + 1)%Q /\
    e = (3600 * h + 60 * m + s)%Z /\
    (0 <= h)%Z /\ (0 <= m < 60)%Z /\ (0 <= s < 60)%Z /\
    String.length (format_02 m) = 2 /\ String.length (format_02 s) = 2.
Proof.
  apply (proj2 (_timer_tick_label_fields demo_on 100) 0%Q);
    [reflexivity | reflexivity | discriminate].
Defined.

(** A clock that has gone back one hour behind the session start. *)
Example _timer_tick_label_clock_back :
  _timer_tick_label demo_on (- 5) = "Running time: -1:59:55"%string.
Proof. vm_compute. reflexivity. Qed.


(* ================================================================= *)
(** * The frame determines the matrix *)

Lemma comma_free_app (s1 s2 : string) :
  comma_free (s1 ++ s2) = comma_free s1 && comma_free s2.
Proof.
  induction s1 as [|a s1 IH]; simpl; [reflexivity|].
  rewrite IH. now rewrite andb_assoc.
Qed.

Lemma comma_free_uint (d : Decimal.uint) :
  comma_free (NilEmpty.string_of_uint d) = true.
Proof. induction d; simpl; auto. Qed.

Lemma comma_free_str (z : Z) : comma_free (str z) = true.
Proof.
  unfold str, NilZero.string_of_int, NilZero.string_of_uint.
  destruct (Z.to_int z) as [d|d]; destruct d; simpl; auto using comma_free_uint.
Qed.

Lemma str_inj (z z' : Z) : str z = str z' -> z = z'.
Proof.
  intros E. pose proof (str_decimal z) as H. rewrite E, str_decimal in H.
  now injection H.
Qed.

Lemma comma_split (x x' r r' : string) :
  comma_free x = true -> comma_free x' = true ->
  (x ++ String "," r)%string = (x' ++ String "," r')%string -> x = x' /\ r = r'.
Proof.
  revert x'. induction x as [|a x IH]; intros x' Hx Hx' E.
  - destruct x' as [|a' x']; simpl in E.
    + injection E as ->. now split.
    + injection E as <- _. simpl in Hx'. discriminate Hx'.
  - destruct x' as [|a' x']; simpl in E.
    + injection E as -> _. simpl in Hx. discriminate Hx.
    + injection E as -> E. simpl in Hx, Hx'.
      apply andb_prop in Hx as [_ Hx]. apply andb_prop in Hx' as [_ Hx'].
      destruct (IH x' Hx Hx' E) as [-> ->]. now split.
Qed.

Lemma comma_free_not_split (x x' r : string) :
  comma_free x = true -> x <> (x' ++ String "," r)%string.
Proof.
  intros Hx E. rewrite E, comma_free_app in Hx. simpl in Hx.
  now rewrite andb_false_r in Hx.
Qed.

Lemma join_comma_inj (l l' : list string) :
  Forall (fun p => comma_free p = true) l ->
  Forall (fun p => comma_free p = true) l' ->
  length l = length l' -> join "," l = join "," l' -> l = l'.
Proof.
  unfold join. revert l'. induction l as [|x l IH]; intros l' Hl Hl' Hlen E.
  - destruct l'; [reflexivity|discriminate Hlen].
  - destruct l' as [|x' l']; [discriminate Hlen|].
    apply Forall_cons in Hl as [Hx Hl]. apply Forall_cons in Hl' as [Hx' Hl'].
    injection Hlen as Hlen.
    destruct l as [|y l], l' as [|y' l']; try discriminate Hlen.
    + simpl in E. now subst.
    + cbn [String.concat] in E. cbn [String.concat] in IH.
      change ("," ++ ?s)%string with (String "," s) in E.
      destruct (comma_split x x' _ _ Hx Hx' E) as [-> E'].
      f_equal. apply IH; auto.
Qed.

Lemma string_app_inv_tail (a b : string) (c : ascii) :
  (a ++ String c EmptyString)%string = (b ++ String c EmptyString)%string -> a = b.
Proof.
  revert b. induction a as [|x a IH]; intros [|y b] E; simpl in E.
  - reflexivity.
  - injection E as _ E. destruct b; discriminate E.
  - injection E as _ E. destruct a; discriminate E.
  - injection E as -> E. f_equal. now apply IH.
Qed.

(** X16.  Two 8x12 matrices with the same frame are the same matrix: the
    numerals hold no comma, so the frame splits back into the 96 values in
    one way only. *)
Theorem transmission_of_injective (g g' : list (list Z)) (t : string) :
  shaped g -> shaped g' ->
  transmission_of g = Ok t -> transmission_of g' = Ok t -> g = g'.
Proof.
  intros Hg Hg' Ht Ht'.
  rewrite transmission_of_shaped in Ht, Ht' by assumption.
  rewrite <- Ht' in Ht. injection Ht as E.
  assert (E1 : join "," (str <$> wire_values g) = join "," (str <$> wire_values g')).
  { apply (string_app_inv_tail _ _ ">"%char). exact E. }
  apply join_comma_inj in E1.
  - assert (E2 : wire_values g = wire_values g').
    { revert E1. generalize (wire_values g) as v. generalize (wire_values g') as v'.
      intros v' v. revert v'. induction v as [|z v IH]; intros [|z' v'] E1;
        try discriminate E1; [reflexivity|].
      injection E1 as Ez Ev. f_equal; [now apply str_inj|now apply IH]. }
    apply shaped_ext; auto. intros r c Hr Hc.
    rewrite (get2_entry 0%Z g r c Hg Hr Hc), (get2_entry 0%Z g' r c Hg' Hr Hc).
    f_equal.
    pose proof (wire_values_lookup g r c Hr Hc) as H1.
    pose proof (wire_values_lookup g' r c Hr Hc) as H2.
    rewrite E2, H2 in H1. now injection H1.
  - apply Forall_fmap, Forall_forall. intros z _. apply comma_free_str.
  - apply Forall_fmap, Forall_forall. intros z _. apply comma_free_str.
  - unfold wire_values. now rewrite !length_fmap.
Qed.

Lemma transmission_of_injective_witness :
  fresh_grid rows cols 0%Z = brightness_values (with_log fresh_instrument []).
Proof.
  apply (transmission_of_injective _ _ zero_frame).
  - apply shaped_fresh.
  - apply shaped_fresh.
  - vm_compute. reflexivity.
  - vm_compute. reflexivity.
Defined.


(* ================================================================= *)
(** * Choosing the serial port *)

Example connect_serial_examples :
  connect_serial [mkAttempt ["COM3"%string; "COM7"%string] "  002 "%string true] = Connected "COM7"%string /\
  connect_serial [mkAttempt [] " S"%string false] = Simulated /\
  connect_serial [mkAttempt ["COM3"%string] "0"%string true; mkAttempt ["COM3"%string] "2"%string true;
                  mkAttempt ["COM3"%string] "one"%string true; mkAttempt [] "1"%string true;
                  mkAttempt ["COM3"%string] "1"%string false; mkAttempt ["COM3"%string] "Q"%string true]
  = Exited.
Proof. repeat split; vm_compute; reflexivity. Qed.


(** [connect_serial] reads no further than the first pass that concludes. *)
Lemma connect_serial_app (before after : list attempt) :
  connect_serial (before ++ after) =
  match connect_serial before with
  | Asking => connect_serial after
  | concluded => concluded
  end.
Proof.
  induction before as [|a before IH]; [reflexivity|].
  cbn [app connect_serial].
  destruct (String.eqb (lower (strip (answer a))) "q"); [reflexivity|].
  destruct (String.eqb (lower (strip (answer a))) "s"); [reflexivity|].
  destruct (ports a) as [|p ps]; [exact IH|].
  destruct (isdigit (lower (strip (answer a)))); [|exact IH].
  destruct (_ && _); [|exact IH].
  destruct (_ !! _); [|exact IH].
  destruct (opens a); [reflexivity|exact IH].
Qed.

Lemma connect_serial_one_pass (a : attempt) (port_name : string) :
  connect_serial [a] = Connected port_name ->
  exists n,
    isdigit (lower (strip (answer a))) = true /\
    int_of_string (lower (strip (answer a))) = Z.of_nat n /\
    1 <= n <= length (ports a) /\
    ports a !! (n - 1) = Some port_name /\
    opens a = true.
Proof.
  cbn [connect_serial]. intros E.
  destruct (String.eqb (lower (strip (answer a))) "q"); [discriminate E|].
  destruct (String.eqb (lower (strip (answer a))) "s"); [discriminate E|].
  destruct (ports a) as [|p ps] eqn:Hports; [discriminate E|].
  destruct (isdigit (lower (strip (answer a)))) eqn:Hdig; [|discriminate E].
  destruct (_ && _) eqn:Hidx; [|discriminate E].
  destruct (_ !! _) as [pn|] eqn:Hlook; [|discriminate E].
  destruct (opens a) eqn:Hopen; [|discriminate E].
  injection E as ->. apply andb_prop in Hidx as [H0 H1].
  apply Z.leb_le in H0. apply Z.ltb_lt in H1.
  exists (Z.to_nat (int_of_string (lower (strip (answer a))))).
  split; [reflexivity|]. split; [rewrite Z2Nat.id; [reflexivity|lia]|].
  split; [lia|]. split; [|reflexivity].
  rewrite <- Hlook. f_equal. lia.
Qed.

(** X17.  When [connect_serial] ends connected to a port, that port is the
    one the user picked: in the pass that concluded, the answer (stripped
    and lowered) was a string of digits whose value [n] lies between 1 and
    the number of ports that pass had found, the port is entry [n - 1] of
    that list, opening it succeeded, and no earlier pass concluded. *)
Theorem connect_serial_connected (attempts : list attempt) (port_name : string) :
  Forall typed attempts ->
  connect_serial attempts = Connected port_name ->
  exists before a after n,
    attempts = before ++ a :: after /\
    connect_serial before = Asking /\
    isdigit (lower (strip (answer a))) = true /\
    int_of_string (lower (strip (answer a))) = Z.of_nat n /\
    1 <= n <= length (ports a) /\
    ports a !! (n - 1) = Some port_name /\
    opens a = true.
Proof.
  intros Htyped. induction attempts as [|a attempts IH]; intros E; [discriminate E|].
  apply Forall_cons in Htyped as [_ Htyped].
  pose proof (connect_serial_app [a] attempts) as Hcons.
  cbn [app] in Hcons. rewrite Hcons in E.
  destruct (connect_serial [a]) as [p| | |] eqn:Ha; try discriminate E.
  - injection E as ->.
    destruct (connect_serial_one_pass a port_name Ha) as (n & H).
    exists [], a, attempts, n. split; [reflexivity|]. split; [reflexivity|exact H].
  - destruct (IH Htyped E) as (before & a0 & after & n & -> & Hb & H).
    exists (a :: before), a0, after, n. split; [reflexivity|]. split; [|exact H].
    pose proof (connect_serial_app [a] before) as Hcons'.
    cbn [app] in Hcons'. now rewrite Hcons', Ha.
Qed.

Lemma connect_serial_connected_witness :
  exists before a after n,
    [mkAttempt ["COM3"%string] "x"%string true;
     mkAttempt ["COM3"%string; "COM7"%string] " 2"%string true]
    = before ++ a :: after /\
    connect_serial before = Asking /\
    isdigit (lower (strip (answer a))) = true /\
    int_of_string (lower (strip (answer a))) = Z.of_nat n /\
    1 <= n <= length (ports a) /\
    ports a !! (n - 1) = Some "COM7"%string /\
    opens a = true.
Proof.
  apply (connect_serial_connected _ "COM7").
  - repeat constructor; simpl; lia.
  - reflexivity.
Defined.


(** ** Typing the number shown in the menu *)

Lemma int_of_digits_acc (d : Decimal.uint) (acc : positive) :
  int_of_digits (Z.pos acc) (NilEmpty.string_of_uint d)
  = Z.pos (Pos.of_uint_acc d acc).
Proof.
  revert acc. induction d; intros acc; cbn [NilEmpty.string_of_uint int_of_digits Pos.of_uint_acc];
    [reflexivity|..];
    rewrite <- IHd; f_equal; simpl; lia.
Qed.

Lemma int_of_digits_uint (d : Decimal.uint) :
  int_of_digits 0 (NilEmpty.string_of_uint d) = Z.of_N (Pos.of_uint d).
Proof.
  induction d; cbn [NilEmpty.string_of_uint int_of_digits Pos.of_uint];
    [reflexivity|exact IHd|..];
    match goal with
    | |- int_of_digits ?k _ = _ =>
        let k' := eval vm_compute in k in change k with k'
    end;
    rewrite int_of_digits_acc; reflexivity.
Qed.

Lemma all_digits_uint (d : Decimal.uint) :
  all_digits (NilEmpty.string_of_uint d) = true.
Proof. induction d; simpl; auto. Qed.

Lemma all_digits_rstrip (s : string) : all_digits s = true -> rstrip s = s.
Proof.
  induction s as [|a s IH]; [reflexivity|]. cbn [all_digits rstrip].
  intros [Ha Hs]%andb_prop. rewrite (IH Hs). destruct s; [|reflexivity].
  assert (E : is_space a = false); [|now rewrite E].
  unfold is_digit_char in Ha. unfold is_space.
  apply andb_prop in Ha as [H1 H2]. apply Nat.leb_le in H1, H2.
  apply orb_false_iff. split; apply andb_false_iff.
  - right. apply Nat.leb_gt. lia.
  - right. apply Nat.leb_gt. lia.
Qed.

Lemma all_digits_lstrip (s : string) : all_digits s = true -> lstrip s = s.
Proof.
  destruct s as [|a s]; [reflexivity|]. cbn [all_digits lstrip].
  intros [Ha _]%andb_prop.
  assert (E : is_space a = false); [|now rewrite E].
  unfold is_digit_char in Ha. unfold is_space.
  apply andb_prop in Ha as [H1 H2]. apply Nat.leb_le in H1, H2.
  apply orb_false_iff. split; apply andb_false_iff.
  - right. apply Nat.leb_gt. lia.
  - right. apply Nat.leb_gt. lia.
Qed.

Lemma all_digits_lower (s : string) : all_digits s = true -> lower s = s.
Proof.
  induction s as [|a s IH]; [reflexivity|]. cbn [all_digits lower].
  intros [Ha Hs]%andb_prop. rewrite (IH Hs). f_equal.
  unfold is_digit_char in Ha. unfold lower_char.
  apply andb_prop in Ha as [H1 H2]. apply Nat.leb_le in H1, H2.
  assert (E : (65 <=? nat_of_ascii a) = false) by (apply Nat.leb_gt; lia).
  now rewrite E.
Qed.

Lemma all_digits_not_letter (s : string) (c : ascii) :
  all_digits s = true -> is_digit_char c = false ->
  String.eqb s (String c EmptyString) = false.
Proof.
  intros Hs Hc. apply String.eqb_neq. intros ->. simpl in Hs.
  rewrite Hc in Hs. discriminate Hs.
Qed.

(** X18.  Typing the number the menu shows beside a port selects that
    port: if the answer is the decimal numeral of [i + 1] and the scan
    found a port at position [i], [connect_serial] tries to open that
    port, ends connected to it when it opens, and asks again when it does
    not. *)
Theorem connect_serial_menu_number (a : attempt) (rest : list attempt)
    (i : nat) (port_name : string) :
  typed a ->
  ports a !! i = Some port_name ->
  answer a = str (Z.of_nat (i + 1)) ->
  connect_serial (a :: rest)
  = if opens a then Connected port_name else connect_serial rest.
Proof.
  intros _ Hport Hans.
  assert (Hstr : exists d, d <> Decimal.Nil /\
            str (Z.of_nat (i + 1)) = NilEmpty.string_of_uint d /\
            Z.of_N (Pos.of_uint d) = Z.of_nat (i + 1)).
  { destruct (Z.of_nat (i + 1)) as [|p|p] eqn:E; try lia.
    exists (Pos.to_uint p). split; [apply DecimalPos.Unsigned.to_uint_nonnil|].
    split.
    - unfold str. cbn [Z.to_int NilZero.string_of_int NilZero.string_of_uint].
      pose proof (DecimalPos.Unsigned.to_uint_nonnil p) as Hnn.
      destruct (Pos.to_uint p); [congruence|reflexivity..].
    - now rewrite DecimalPos.Unsigned.of_to. }
  destruct Hstr as (d & Hd & Hs & Hval).
  pose proof (all_digits_uint d) as Hall.
  assert (Hchoice : lower (strip (answer a)) = NilEmpty.string_of_uint d).
  { rewrite Hans, Hs. unfold strip.
    now rewrite all_digits_lstrip, all_digits_rstrip, all_digits_lower. }
  cbn [connect_serial]. rewrite Hchoice.
  rewrite (all_digits_not_letter _ "q" Hall eq_refl).
  rewrite (all_digits_not_letter _ "s" Hall eq_refl).
  assert (Hlen : i < length (ports a)) by (eapply lookup_lt_Some; eauto).
  destruct (ports a) as [|p ps] eqn:Hports; [simpl in Hlen; lia|].
  assert (Hdig : isdigit (NilEmpty.string_of_uint d) = true).
  { unfold isdigit. destruct d; [congruence|exact Hall..]. }
  rewrite Hdig. unfold int_of_string. rewrite int_of_digits_uint, Hval.
  assert (Hidx : ((0 <=? Z.of_nat (i + 1) - 1)%Z
                  && (Z.of_nat (i + 1) - 1 <? Z.of_nat (length (p :: ps)))%Z) = true).
  { apply andb_true_intro. split; [apply Z.leb_le|apply Z.ltb_lt]; lia. }
  rewrite Hidx. replace (Z.to_nat (Z.of_nat (i + 1) - 1)) with i by lia.
  now rewrite Hport.
Qed.

Lemma connect_serial_menu_number_witness :
  connect_serial [mkAttempt ["COM3"%string; "COM7"%string] "2"%string true]
  = if opens (mkAttempt ["COM3"%string; "COM7"%string] "2"%string true)
    then Connected "COM7"%string else connect_serial [].
Proof.
  apply (connect_serial_menu_number _ [] 1 "COM7").
  - split; [reflexivity|simpl; lia].
  - reflexivity.
  - reflexivity.
Defined.


(* ================================================================= *)
(** * Cells outside the grid, and the average across an edit *)

Lemma get2_outside {A : Type} (g : list (list A)) (r c : nat) :
  shaped g -> rows <= r \/ cols <= c -> get2 g r c = Raise IndexError.
Proof.
  intros Hg Hout. unfold get2, getitem.
  destruct (g !! r) as [row|] eqn:Hrow; [|reflexivity]. simpl.
  destruct (row !! c) as [x|] eqn:Hx; [|reflexivity]. exfalso.
  apply lookup_lt_Some in Hx. rewrite (shaped_row g r row Hg Hrow) in Hx.
  apply lookup_lt_Some in Hrow. destruct Hg as [Hlen _]. lia.
Qed.

(** X19.  For a row index of 8 or more, or a column index of 12 or more,
    [_on_button_click] raises [IndexError] before the dialog's answer is
    looked at, and [_calculate_average] raises [IndexError] too, except
    while the instrument is off with no start time, where it returns 0.0
    without reading the cell. *)
Theorem handlers_outside_the_grid (self : InstrumentUI) (r c : nat) (value : Z)
    (ok : bool) (now : Q) :
  wf self -> rows <= r \/ cols <= c ->
  _on_button_click self r c value ok now = Raise IndexError /\
  _calculate_average self r c now
  = if is_None (start_time self) && negb (instrument_on self)
    then Ok 0%Q else Raise IndexError.
Proof.
  intros (Hb & Hs & Hl) Hout. split.
  - unfold _on_button_click. now rewrite (get2_outside _ r c Hb Hout).
  - unfold _calculate_average.
    destruct (is_None (start_time self) && negb (instrument_on self)); [reflexivity|].
    destruct (Qle_bool _ 0).
    + now rewrite (get2_outside _ r c Hb Hout).
    + now rewrite (get2_outside _ r c Hs Hout).
Qed.

Lemma handlers_outside_the_grid_witness :
  _on_button_click demo_on 8 0 40 true 9 = Raise IndexError /\
  _calculate_average demo_on 8 0 9
  = if is_None (start_time demo_on) && negb (instrument_on demo_on)
    then Ok 0%Q else Raise IndexError.
Proof.
  apply (handlers_outside_the_grid demo_on 8 0 40 true 9);
    [exact wf_demo_on | left; unfold rows; lia].
Defined.

(** X20.  An accepted edit does not change the average of the edited cell
    at the instant of the edit, when that instant is after the session
    start and not before the cell's last update time: the new brightness
    only counts from then on. *)
Theorem _on_button_click_keeps_average_now (self : InstrumentUI) (row col : nat)
    (value : Z) (now start : Q) (b : Z) (acc lut : Q) :
  wf self -> row < rows -> col < cols ->
  instrument_on self = true -> start_time self = Some start ->
  cell self row col = Ok (b, acc, Some lut) ->
  (start < now)%Q -> (lut <= now)%Q ->
  exists after q q',
    _on_button_click self row col value true now = Ok after /\
    _calculate_average self row col now = Ok q /\
    _calculate_average after row col now = Ok q' /\
    (q == q')%Q.
Proof.
  intros Hwf Hr Hc Hon Hst Hcell Hlate Hlut.
  destruct (_on_button_click_cells self row col value now Hwf Hr Hc)
    as (v & after & Hv & Hclick & _ & Hsess & _ & Hcells).
  rewrite Hcell in Hv. injection Hv as <-.
  injection Hsess as _ Hst' _. rewrite Hst in Hst'.
  specialize (Hcells row col). rewrite decide_True in Hcells by reflexivity.
  rewrite Hon in Hcells. unfold click_cell in Hcells.
  assert (Hpos : (0 < now - start)%Q) by lra.
  pose proof (_calculate_average_running self row col now start b acc lut
                Hcell Hst Hpos) as Hq.
  exists after. destruct (Qlt_le_dec 0 (now - lut)) as [Hdt|Hdt].
  - pose proof (_calculate_average_running after row col now start _ _ _
                  Hcells Hst' Hpos) as Hq'.
    eexists. eexists. split; [assumption|]. split; [exact Hq|].
    split; [exact Hq'|]. apply Qdiv_comp; [ring|reflexivity].
  - pose proof (_calculate_average_running after row col now start _ _ _
                  Hcells Hst' Hpos) as Hq'.
    eexists. eexists. split; [assumption|]. split; [exact Hq|].
    split; [exact Hq'|]. apply Qdiv_comp; [|reflexivity].
    assert (E : (now - lut == 0)%Q) by (apply Qle_antisym; lra).
    rewrite E. ring.
Qed.

Lemma _on_button_click_keeps_average_now_witness :
  exists after q q',
    _on_button_click demo_on 0 0 80 true 9 = Ok after /\
    _calculate_average demo_on 0 0 9 = Ok q /\
    _calculate_average after 0 0 9 = Ok q' /\
    (q == q')%Q.
Proof.
  apply (_on_button_click_keeps_average_now demo_on 0 0 80 9 0 50 120 4).
  - exact wf_demo_on.
  - unfold rows; lia.
  - unfold cols; lia.
  - reflexivity.
  - reflexivity.
  - reflexivity.
  - reflexivity.
  - discriminate.
Defined.

(** ** The answer of the input dialog *)

Lemma brightness_in_range_demo_on : brightness_in_range demo_on.
Proof.
  intros r c v Hv.
  destruct (get2_shaped_range _ r c v (proj1 wf_demo_on) Hv) as [Hr Hc].
  unfold rows in Hr. unfold cols in Hc. unfold getInt_min, getInt_max.
  do 8 (destruct r as [|r];
          [do 12 (destruct c as [|c];
                    [vm_compute in Hv; injection Hv as <-; lia|]); lia|]).
  lia.
Qed.

(** X21.  [_on_button_click] checks no range and raises no range error: the
    bounds 0 and 100 are those handed to the input dialog, and the handler
    takes the dialog's answer as it comes.  On a cell of the grid it never
    raises.  When the dialog is cancelled the state, output included, is
    unchanged.  When it is accepted the value is stored in the cell; while
    the instrument is on exactly one frame, that of the new matrix, is
    added to the output, and while it is off nothing is sent; and a value
    within the dialog's bounds keeps every brightness within them. *)
Theorem _on_button_click_stores_dialog_value (self : InstrumentUI) (row col : nat)
    (value : Z) (ok : bool) (now : Q) :
  wf self -> row < rows -> col < cols ->
  exists self',
    _on_button_click self row col value ok now = Ok self' /\
    (ok = false -> self' = self) /\
    (ok = true ->
       get2 (brightness_values self') row col = Ok value /\
       (if instrument_on self
        then exists t, transmission_of (brightness_values self') = Ok t /\
               log self' = log self ++ [EvSend t]
        else log self' = log self) /\
       ((getInt_min <= value <= getInt_max)%Z ->
        brightness_in_range self -> brightness_in_range self')).
Proof.
  intros Hwf Hr Hc. destruct ok.
  2:{ exists self. split; [now apply _on_button_click_cancel|].
      split; [reflexivity|discriminate]. }
  destruct (_on_button_click_cells self row col value now Hwf Hr Hc)
    as ([[b acc] l] & self' & Hcell & Hclick & Hwf' & _ & Hlog & Hcells).
  exists self'. split; [assumption|]. split; [discriminate|]. intros _.
  assert (Hval : get2 (brightness_values self') row col = Ok value).
  { specialize (Hcells row col). rewrite decide_True in Hcells by reflexivity.
    destruct (click_cell _ _ _ _) as [[b' s'] l'] eqn:E.
    apply cell_Ok in Hcells as (Eb & _). rewrite Eb. f_equal.
    unfold click_cell in E. destruct (instrument_on self).
    - destruct l as [l0|]; [destruct (Qlt_le_dec 0 (now - l0))|]; congruence.
    - congruence. }
  split; [exact Hval|]. split; [exact Hlog|]. intros Hin Hrange r c v Hv.
  destruct (decide ((r, c) = (row, col))) as [E|NE].
  - injection E as -> ->. rewrite Hval in Hv. now injection Hv as <-.
  - pose proof Hwf' as (Hb' & _).
    destruct (get2_shaped_range _ r c v Hb' Hv) as [Hr' Hc'].
    destruct (wf_cell self r c Hwf Hr' Hc') as (b0 & s0 & l0 & Hcell0).
    specialize (Hcells r c). rewrite decide_False in Hcells by assumption.
    rewrite Hcell0 in Hcells. apply cell_Ok in Hcells as (Eb' & _).
    apply cell_Ok in Hcell0 as (Eb0 & _).
    rewrite Eb' in Hv. injection Hv as <-. exact (Hrange r c b0 Eb0).
Qed.

Lemma _on_button_click_stores_dialog_value_witness :
  exists self',
    _on_button_click demo_on 1 2 100 true 6 = Ok self' /\
    get2 (brightness_values self') 1 2 = Ok 100%Z /\
    (exists t, transmission_of (brightness_values self') = Ok t /\
       log self' = log demo_on ++ [EvSend t]) /\
    brightness_in_range self'.
Proof.
  destruct (_on_button_click_stores_dialog_value demo_on 1 2 100 true 6)
    as (self' & Hclick & _ & Hok).
  - exact wf_demo_on.
  - unfold rows; lia.
  - unfold cols; lia.
  - destruct (Hok eq_refl) as (Hval & Hlog & Hrange).
    exists self'. split; [exact Hclick|]. split; [exact Hval|].
    split; [exact Hlog|]. apply Hrange.
    + unfold getInt_min, getInt_max. lia.
    + exact brightness_in_range_demo_on.
Defined.
